(** * Verification of examples/livehunt_network_watch.py

    A shallow embedding of the script that keeps a set of livehunt rulesets
    (file, url, domain, ip_address) in step with a list of watched domains,
    and the properties its specification states about it.

    Python values are modelled as follows.
    - [str] is [string]; every [ascii] stands for ONE character whose code
      point is below 256, so the model covers text written in Latin-1.
    - a list of strings is [list string]; the dict of rulesets and the
      template directory are [gmap string _].
    - printing, [sys.exit], exceptions, the environment, the template files
      and the remote service are threaded through a small monad over a
      [world] record. *)

From Stdlib Require Import ZArith Ascii.
From stdpp Require Import base gmap strings list sorting fin_maps.

Local Open Scope Z_scope.
Local Open Scope nat_scope.

#[local] Arguments String.append !_ _ / : simpl nomatch.

(** ** Python string primitives *)

Module PyStr.

(** [len(s)]. *)
Definition len (s : string) : nat := String.length s.

(** [s.startswith(p)]. *)
Definition startswith (p s : string) : bool := String.prefix p s.

(** The scanning loop shared by [replace]: [skip] counts the characters
    of the occurrence just matched that are still to be passed over, so
    occurrences are found left to right and never overlap. *)
Fixpoint replace_go (old new : string) (skip : nat) (s : string) : string :=
  match s with
  | EmptyString => EmptyString
  | String c s' =>
      match skip with
      | S k => replace_go old new k s'
      | O =>
          if startswith old s
          then new +:+ replace_go old new (len old - 1) s'
          else String c (replace_go old new 0 s')
      end
  end.

(** With an empty [old], Python puts [new] before every character and at
    the end. *)
Fixpoint intersperse_go (new s : string) : string :=
  match s with
  | EmptyString => new
  | String c s' => new +:+ String c (intersperse_go new s')
  end.

(** [s.replace(old, new)]. *)
Definition replace (old new s : string) : string :=
  match old with
  | EmptyString => intersperse_go new s
  | _ => replace_go old new 0 s
  end.

(** The scanning loop of [split]: [cur] is the piece being collected, in
    reverse, [left] the number of cuts still allowed ([None]: no bound). *)
Fixpoint split_go (sep : string) (left : option nat) (skip : nat)
    (cur : string) (s : string) : list string :=
  match s with
  | EmptyString => [String.rev cur]
  | String c s' =>
      match skip with
      | S k => split_go sep left k cur s'
      | O =>
          match left with
          | Some O => [String.rev cur +:+ s]
          | _ =>
              if startswith sep s
              then String.rev cur ::
                     split_go sep (pred <$> left) (len sep - 1) EmptyString s'
              else split_go sep left 0 (String c cur) s'
          end
      end
  end.

(** [s.split(sep)] and [s.split(sep, maxsplit)] for a non-empty [sep]
    (Python raises [ValueError] on an empty separator; the script only
    splits on constants). *)
Definition split (sep s : string) : list string :=
  split_go sep None 0 EmptyString s.

Definition splitn (sep : string) (maxsplit : nat) (s : string) : list string :=
  split_go sep (Some maxsplit) 0 EmptyString s.

(** [sub in s], as a proposition and as a test. *)
Definition contains (sub s : string) : Prop :=
  ∃ pre post, s = pre +:+ sub +:+ post.

Fixpoint occurs (sub s : string) : bool :=
  startswith sub s ||
  match s with
  | EmptyString => false
  | String _ s' => occurs sub s'
  end.

(** [c in s] for a single character. *)
Fixpoint has_char (c : ascii) (s : string) : bool :=
  match s with
  | EmptyString => false
  | String c' s' => Ascii.eqb c c' || has_char c s'
  end.

End PyStr.

(** ** Character classes and the identifier sanitizer *)

(** Code point of a character. *)
Definition ord (c : ascii) : N := Ascii.N_of_ascii c.

Definition in_range (lo hi : N) (c : ascii) : bool :=
  (lo <=? ord c)%N && (ord c <=? hi)%N.

(** The class [\w] of Python's [re] on [str] patterns: the characters for
    which [str.isalnum] holds, and the underscore.  Below 256 these are the
    ASCII digits and letters, and in the upper half the letters, the
    superscript digits and the vulgar fractions of Latin-1.  [\d] is
    contained in [\w]. *)
Definition is_word (c : ascii) : bool :=
  in_range 48 57 c || in_range 65 90 c || (ord c =? 95)%N
  || in_range 97 122 c
  || (ord c =? 170)%N || in_range 178 179 c || (ord c =? 181)%N
  || in_range 185 186 c || in_range 188 190 c
  || in_range 192 214 c || in_range 216 246 c || in_range 248 255 c.

Definition is_digit (c : ascii) : bool := in_range 48 57 c.

(** [re.compile(r'[^\w\d]').sub(repl, s)] for a one-character [repl]: the
    pattern matches exactly one character, so the substitution visits the
    characters one by one. *)
Fixpoint re_sub_nonword (repl : ascii) (s : string) : string :=
  match s with
  | EmptyString => EmptyString
  | String c s' =>
      String (if negb (is_word c || is_digit c) then repl else c)
             (re_sub_nonword repl s')
  end.

Definition domain_escaped (domain : string) : string :=
  re_sub_nonword "_"%char domain.

(** ** [json.dumps(domains, indent=1)] *)

Module Json.

Definition hex_digit (n : N) : ascii :=
  if (n <? 10)%N then Ascii.ascii_of_N (48 + n) else Ascii.ascii_of_N (87 + n).

(** [\uXXXX] for a code point below 256. *)
Definition u_escape (c : ascii) : string :=
  String "\"%char (String "u"%char (String "0"%char (String "0"%char
    (String (hex_digit (ord c / 16)) (String (hex_digit (ord c mod 16))
       EmptyString))))).

(** One character of a string literal, [ensure_ascii] being on: the
    quote, the backslash and the five short escapes, and [\uXXXX] for
    everything else outside the range from space to tilde. *)
Definition escape_char (c : ascii) : string :=
  if Ascii.eqb c "\"%char then String "\"%char (String "\"%char EmptyString)
  else if (ord c =? 34)%N then String "\"%char (String c EmptyString)
  else if (ord c =? 8)%N then "\b"
  else if (ord c =? 12)%N then "\f"
  else if (ord c =? 10)%N then "\n"
  else if (ord c =? 13)%N then "\r"
  else if (ord c =? 9)%N then "\t"
  else if in_range 32 126 c then String c EmptyString
  else u_escape c.

Fixpoint escape (s : string) : string :=
  match s with
  | EmptyString => EmptyString
  | String c s' => escape_char c +:+ escape s'
  end.

Definition quote : string := String (Ascii.ascii_of_N 34) EmptyString.
Definition nl : string := String (Ascii.ascii_of_N 10) EmptyString.

Definition dumps_str (s : string) : string := quote +:+ escape s +:+ quote.

(** The items of a non-empty array, each on a line of its own behind one
    space, a comma after each but the last. *)
Fixpoint dumps_items (l : list string) : string :=
  match l with
  | [] => EmptyString
  | [s] => nl +:+ " " +:+ dumps_str s
  | s :: l' => nl +:+ " " +:+ dumps_str s +:+ "," +:+ dumps_items l'
  end.

Definition dumps_indent1 (l : list string) : string :=
  match l with
  | [] => "[]"
  | _ => "[" +:+ dumps_items l +:+ nl +:+ "]"
  end.

(** *** [json.loads] on arrays of strings

    A decoder for the texts the script stores in a ruleset header: an
    array of string literals.  It follows the grammar of Python's
    decoder (white space, the short escapes, [\uXXXX], no raw control
    character inside a literal, nothing behind the array); a [\uXXXX]
    above 255 names a character outside the alphabet of the model and is
    refused. *)

Inductive lstate :=
| LStart
| LOpen
| LStr (cur : string)
| LEsc (cur : string)
| LHex (k : nat) (acc : N) (cur : string)
| LAfter
| LComma
| LEnd
| LFail.

Definition is_space (c : ascii) : bool :=
  (ord c =? 32)%N || (ord c =? 9)%N || (ord c =? 10)%N || (ord c =? 13)%N.

Definition hex_value (c : ascii) : option N :=
  if in_range 48 57 c then Some (ord c - 48)%N
  else if in_range 97 102 c then Some (ord c - 87)%N
  else if in_range 65 70 c then Some (ord c - 55)%N
  else None.

(** The character a short escape stands for. *)
Definition unescape (c : ascii) : option ascii :=
  if (ord c =? 34)%N || (ord c =? 92)%N || (ord c =? 47)%N then Some c
  else if Ascii.eqb c "b" then Some (Ascii.ascii_of_N 8)
  else if Ascii.eqb c "f" then Some (Ascii.ascii_of_N 12)
  else if Ascii.eqb c "n" then Some (Ascii.ascii_of_N 10)
  else if Ascii.eqb c "r" then Some (Ascii.ascii_of_N 13)
  else if Ascii.eqb c "t" then Some (Ascii.ascii_of_N 9)
  else None.

(** One character of input; [cur] is the literal being read and [acc]
    the strings read so far, both in reverse. *)
Definition lstep (st : lstate) (acc : list string) (c : ascii)
    : lstate * list string :=
  match st with
  | LStart =>
      if is_space c then (LStart, acc)
      else if Ascii.eqb c "[" then (LOpen, acc) else (LFail, acc)
  | LOpen =>
      if is_space c then (LOpen, acc)
      else if Ascii.eqb c "]" then (LEnd, acc)
      else if (ord c =? 34)%N then (LStr EmptyString, acc) else (LFail, acc)
  | LStr cur =>
      if (ord c =? 34)%N then (LAfter, String.rev cur :: acc)
      else if (ord c =? 92)%N then (LEsc cur, acc)
      else if (ord c <? 32)%N then (LFail, acc)
      else (LStr (String c cur), acc)
  | LEsc cur =>
      if Ascii.eqb c "u" then (LHex 4 0 cur, acc)
      else match unescape c with
           | Some c' => (LStr (String c' cur), acc)
           | None => (LFail, acc)
           end
  | LHex k n cur =>
      match hex_value c with
      | None => (LFail, acc)
      | Some h =>
          let n' := (n * 16 + h)%N in
          match k with
          | 1 => if (n' <? 256)%N
                 then (LStr (String (Ascii.ascii_of_N n') cur), acc)
                 else (LFail, acc)
          | _ => (LHex (pred k) n' cur, acc)
          end
      end
  | LAfter =>
      if is_space c then (LAfter, acc)
      else if Ascii.eqb c "," then (LComma, acc)
      else if Ascii.eqb c "]" then (LEnd, acc) else (LFail, acc)
  | LComma =>
      if is_space c then (LComma, acc)
      else if (ord c =? 34)%N then (LStr EmptyString, acc) else (LFail, acc)
  | LEnd => if is_space c then (LEnd, acc) else (LFail, acc)
  | LFail => (LFail, acc)
  end.

Fixpoint loads_go (st : lstate) (acc : list string) (s : string)
    : option (list string) :=
  match s with
  | EmptyString =>
      match st with
      | LEnd => Some (reverse acc)
      | _ => None
      end
  | String c s' => let '(st', acc') := lstep st acc c in loads_go st' acc' s'
  end.

Definition loads (s : string) : option (list string) := loads_go LStart [] s.

(** Where the decoder stands after a stretch of input. *)
Fixpoint run (p : lstate * list string) (s : string) : lstate * list string :=
  match s with
  | EmptyString => p
  | String c s' => run (lstep p.1 p.2 c) s'
  end.

End Json.

(** ** The canonical domain list *)

(** [x in l] on a Python list. *)
Definition py_in (x : string) (l : list string) : bool := bool_decide (x ∈ l).

(** [l.remove(x)]: the first occurrence goes; the script calls it only
    after the membership test. *)
Fixpoint py_remove (x : string) (l : list string) : list string :=
  match l with
  | [] => []
  | y :: l' => if decide (x = y) then l' else y :: py_remove x l'
  end.

(** [list(set(l))] lists each element once, in an order that Python does
    not fix; [py_sort] below makes the order immaterial
    (see [canonical_order_irrelevant]). *)
Definition list_of_set (l : list string) : list string := remove_dups l.

(** [l.sort()] on strings: ascending by code points, by a merge sort. *)
Definition py_sort (l : list string) : list string := merge_sort String.le l.

(** Lines 192-193 of [main]. *)
Definition canonical (l : list string) : list string := py_sort (list_of_set l).

(** Truth value of an optional command-line string: [None] and the empty
    string are false. *)
Definition truthy (o : option string) : bool :=
  match o with
  | Some (String _ _) => true
  | _ => false
  end.

(** ** The reconciler: lines 182-193 of [main]

    The two list variables of [main].  [copy.copy] gives [new_domain_list]
    an object of its own, so the later [append] and [remove] leave the
    object behind [domains] alone; the record keeps both. *)
Record locals := Locals {
  domains : list string;
  new_domain_list : list string
}.

Inductive reconciled :=
| NotFound (d : string) (vars : locals)
| Reconciled (vars : locals).

Definition copy_domains (old : list string) : locals :=
  {| domains := old; new_domain_list := old |}.

Definition append_new (d : string) (v : locals) : locals :=
  {| domains := domains v; new_domain_list := new_domain_list v ++ [d] |}.

Definition remove_new (d : string) (v : locals) : locals :=
  {| domains := domains v; new_domain_list := py_remove d (new_domain_list v) |}.

Definition canonicalize_new (v : locals) : locals :=
  {| domains := domains v; new_domain_list := canonical (new_domain_list v) |}.

Definition reconcile (old : list string) (add_domain delete_domain : option string)
    : reconciled :=
  let v := copy_domains old in
  let v := match add_domain with
           | Some a => if truthy add_domain then append_new a v else v
           | None => v
           end in
  match delete_domain with
  | Some d =>
      if truthy delete_domain then
        if negb (py_in d (new_domain_list v)) then NotFound d v
        else Reconciled (canonicalize_new (remove_new d v))
      else Reconciled (canonicalize_new v)
  | None => Reconciled (canonicalize_new v)
  end.

(** ** Constants of the script *)

Definition API_KEY_ENV_VAR : string := "VT_API_KEY".
Definition RULESET_PREFIX : string := "auto_network_watch_".
Definition RULESET_ENTITY : list string := ["file"; "url"; "domain"; "ip_address"].
Definition RULESET_LINK : string := "https://www.virustotal.com/yara-editor/livehunt/".

(** ** The world of a run, and the monad that threads it *)

(** A ruleset object as the remote iterator yields it. *)
Record ruleset_obj := RulesetObj {
  obj_id : string;
  obj_name : string;
  obj_rules : string
}.

(** A value of the [rulesets] dict. *)
Record ruleset := Ruleset {
  rs_id : string;
  rs_name : string;
  rs_rules : string;
  rs_domains : list string
}.

(** A task dict of the queue; the key [id] is optional. *)
Record task := Task {
  task_name : string;
  task_entity : string;
  task_rules : string;
  task_id : option string
}.

(** The write calls that reach the remote service. *)
Inductive call :=
| PatchCall (path : string) (rules : string)
| PostCall (name entity rules : string).

Inductive exn :=
| FileNotFoundError (file : string)
| IndexError
| JSONDecodeError.

(** [template_dir] is the value of [TEMPLATE_DIR], [templates] the text
    files of the file system by path,
    [api_key] the environment variable, [listing] what the remote iterator
    does step by step (an object, or an [APIError] with its message),
    [patch_reply] and [post_reply] the answers of the service to a write
    ([patch_reply]: an error message if any; [post_reply]: the new id or an
    error message); [stdout] collects the printed lines and [calls] the
    writes issued, oldest first. *)
Record world := World {
  template_dir : string;
  templates : gmap string string;
  api_key : option string;
  listing : list (ruleset_obj + string);
  patch_reply : string → string → option string;
  post_reply : string → string → string → string + string;
  stdout : list string;
  calls : list call
}.

Inductive outcome (A : Type) :=
| Returned (a : A)
| SysExit (code : Z)
| Raised (e : exn).
Arguments Returned {A} a.
Arguments SysExit {A} code.
Arguments Raised {A} e.

Definition M (A : Type) : Type := world → outcome A * world.

Definition ret {A} (a : A) : M A := λ w, (Returned a, w).

Definition bind {A B} (m : M A) (k : A → M B) : M B :=
  λ w, match m w with
       | (Returned a, w') => k a w'
       | (SysExit c, w') => (SysExit c, w')
       | (Raised e, w') => (Raised e, w')
       end.

#[global] Instance M_ret : MRet M := @ret.
#[global] Instance M_bind : MBind M := λ A B k m, bind m k.

Definition print (line : string) : M unit :=
  λ w, (Returned tt,
        {| template_dir := template_dir w; templates := templates w;
           api_key := api_key w; listing := listing w;
           patch_reply := patch_reply w; post_reply := post_reply w;
           stdout := stdout w ++ [line]; calls := calls w |}).

Definition sys_exit {A} (code : Z) : M A := λ w, (SysExit code, w).

Definition raise {A} (e : exn) : M A := λ w, (Raised e, w).

Definition log_call (c : call) : M unit :=
  λ w, (Returned tt,
        {| template_dir := template_dir w; templates := templates w;
           api_key := api_key w; listing := listing w;
           patch_reply := patch_reply w; post_reply := post_reply w;
           stdout := stdout w; calls := calls w ++ [c] |}).

Definition ask {A} (f : world → A) : M A := λ w, (Returned (f w), w).

(** [for x in l: body x]. *)
Fixpoint for_each {A} (l : list A) (body : A → M unit) : M unit :=
  match l with
  | [] => ret tt
  | x :: l' => body x ;; for_each l' body
  end.

Fixpoint ends_with_slash (s : string) : bool :=
  match s with
  | EmptyString => false
  | String c EmptyString => Ascii.eqb c "/"%char
  | String _ s' => ends_with_slash s'
  end.

(** [os.path.join(dir, name)] for a relative [name]. *)
Definition path_join (dir name : string) : string :=
  match dir with
  | EmptyString => name
  | _ => if ends_with_slash dir then dir +:+ name else dir +:+ "/" +:+ name
  end.

(** [os.path.join(TEMPLATE_DIR, name)]. *)
Definition template_path (name : string) : M string :=
  ask (λ w, path_join (template_dir w) name).

(** [open(path, encoding='utf-8').read()]. *)
Definition read_file (path : string) : M string :=
  λ w, match templates w !! path with
       | Some text => (Returned text, w)
       | None => (Raised (FileNotFoundError path), w)
       end.

(** [os.path.exists(path)]. *)
Definition path_exists (path : string) : M bool :=
  ask (λ w, bool_decide (is_Some (templates w !! path))).

(** ** Template renderer: [render_template] *)

Definition render_rule_block (rule_block domain : string) : string :=
  PyStr.replace "${domain_escaped}" (domain_escaped domain)
    (PyStr.replace "${domain}" domain rule_block).

(** The [for] loop of [render_template], on the accumulator [template]. *)
Fixpoint render_blocks (rule_block : string) (doms : list string)
    (template : string) : string :=
  match doms with
  | [] => template
  | domain :: doms' =>
      render_blocks rule_block doms'
        ((template +:+ render_rule_block rule_block domain) +:+ Json.nl)
  end.

Definition render_template (entity : string) (doms : list string) : M string :=
  let domain_list := Json.dumps_indent1 doms in
  let template := EmptyString in
  body_template ← template_path "_body.yara";
  body ← read_file body_template;
  let template := template +:+ PyStr.replace "${domain_list_json}" domain_list body in
  let template := template +:+ Json.nl in
  kind_template ← template_path (entity +:+ ".yara");
  rule_block ← read_file kind_template;
  ret (render_blocks rule_block doms template).

(** ** Sync dispatcher: [build_rulesets] and [upload_rulesets] *)

(** The body of the loop of [build_rulesets]; [queue.put] appends. *)
Definition build_one (rulesets : gmap string ruleset) (doms : list string)
    (entity : string) (queue : list task) : M (list task) :=
  rules ← render_template entity doms;
  let t := {| task_name := RULESET_PREFIX +:+ entity; task_entity := entity;
              task_rules := rules; task_id := None |} in
  let t := match rulesets !! entity with
           | Some r => {| task_name := task_name t; task_entity := task_entity t;
                          task_rules := task_rules t; task_id := Some (rs_id r) |}
           | None => t
           end in
  ret (queue ++ [t]).

Fixpoint build_loop (rulesets : gmap string ruleset) (doms : list string)
    (entities : list string) (queue : list task) : M (list task) :=
  match entities with
  | [] => ret queue
  | entity :: entities' =>
      queue ← build_one rulesets doms entity queue;
      build_loop rulesets doms entities' queue
  end.

Definition build_rulesets (queue : list task) (rulesets : gmap string ruleset)
    (doms : list string) : M (list task) :=
  build_loop rulesets doms RULESET_ENTITY queue.

(** The body of the loop of [upload_rulesets] for one task taken from the
    queue: an update if the task carries a non-empty id, a creation
    otherwise; an [APIError] is caught and reported. *)
Definition upload_one (t : task) : M unit :=
  let name := task_name t in
  match task_id t with
  | Some (String c i) =>
      let id := String c i in
      let path := "/intelligence/hunting_rulesets/" +:+ id in
      log_call (PatchCall path (task_rules t));;
      reply ← ask (λ w, patch_reply w path (task_rules t));
      match reply with
      | None => print ("Ruleset " +:+ name +:+ " [" +:+ RULESET_LINK +:+ id +:+ "] updated.")
      | Some e => print ("Error updating " +:+ name +:+ ": " +:+ e)
      end
  | _ =>
      log_call (PostCall name (task_entity t) (task_rules t));;
      reply ← ask (λ w, post_reply w name (task_entity t) (task_rules t));
      match reply with
      | inl id => print ("Ruleset " +:+ name +:+ " [" +:+ RULESET_LINK +:+ id +:+ "] created.")
      | inr e => print ("Error saving " +:+ name +:+ ": " +:+ e)
      end
  end.

(** One worker: [while not queue.empty()].  It returns what is left of the
    queue, which is nothing. *)
Fixpoint upload_rulesets (queue : list task) : M (list task) :=
  match queue with
  | [] => ret []
  | t :: queue' => upload_one t;; upload_rulesets queue'
  end.

(** [args.workers] workers on the shared queue.  They are cooperative
    coroutines of one thread; [run_workers] runs them in the order of their
    creation, each to its end, so the calls keep the order of the queue and
    each report follows its call.  With real replies the reports of
    different workers may come in another order: [pool_step] below lets the
    workers take turns in any order, and [pool_final] shows that the calls
    are the same in every schedule. *)
Fixpoint run_workers (n : nat) (queue : list task) : M (list task) :=
  match n with
  | O => ret queue
  | S n' => queue ← upload_rulesets queue; run_workers n' queue
  end.

(** The write that [upload_one] issues for a task. *)
Definition call_of (t : task) : call :=
  match task_id t with
  | Some (String c i) =>
      PatchCall ("/intelligence/hunting_rulesets/" +:+ String c i) (task_rules t)
  | _ => PostCall (task_name t) (task_entity t) (task_rules t)
  end.

(** *** The workers as interleaved coroutines

    Under [asyncio] a worker runs until it waits for the reply to its call;
    then another worker runs.  A [Ready] worker looks at the queue: if it is
    empty the worker leaves its loop, otherwise it takes the first task and
    issues the call for it, both without being suspended.  A [Waiting]
    worker gets its reply at some later time, reports, marks the task as
    done and is [Ready] again.  Which worker moves next is not fixed. *)
Inductive worker :=
| Ready
| Waiting (t : task)
| Finished.

Record pool := Pool {
  pool_queue : list task;
  pool_workers : list worker;
  pool_calls : list call;
  pool_done : list task
}.

Inductive pool_step : pool → pool → Prop :=
| step_take i t queue ws cs ds :
    ws !! i = Some Ready →
    pool_step (Pool (t :: queue) ws cs ds)
              (Pool queue (<[i := Waiting t]> ws) (cs ++ [call_of t]) ds)
| step_reply i t queue ws cs ds :
    ws !! i = Some (Waiting t) →
    pool_step (Pool queue ws cs ds)
              (Pool queue (<[i := Ready]> ws) cs (ds ++ [t]))
| step_leave i ws cs ds :
    ws !! i = Some Ready →
    pool_step (Pool [] ws cs ds) (Pool [] (<[i := Finished]> ws) cs ds).

(** [args.workers] workers created on a queue, and the pool when [gather]
    returns. *)
Definition pool_start (n : nat) (queue : list task) : pool :=
  Pool queue (replicate n Ready) [] [].

Definition pool_finished (p : pool) : Prop :=
  Forall (λ x, x = Finished) (pool_workers p).

(** The tasks whose call is out and whose reply has not come. *)
Definition in_flight (ws : list worker) : list task :=
  omap (λ x, match x with Waiting t => Some t | _ => None end) ws.

(** A bound on the number of steps a pool can still take. *)
Definition worker_weight (x : worker) : nat :=
  match x with
  | Ready => 1
  | Waiting _ => 2
  | Finished => 0
  end.

Definition pool_measure (p : pool) : nat :=
  3 * length (pool_queue p) + sum_list (worker_weight <$> pool_workers p).

(** What holds of every pool a schedule can reach from the start: the
    tasks taken are a prefix of the queue, their calls are out in that
    order, each is done or in flight, and once a worker has left its loop
    the queue is empty. *)
Definition pool_inv (n : nat) (queue : list task) (p : pool) : Prop :=
  ∃ taken,
    queue = taken ++ pool_queue p
    ∧ pool_calls p = call_of <$> taken
    ∧ taken ≡ₚ pool_done p ++ in_flight (pool_workers p)
    ∧ length (pool_workers p) = n
    ∧ (Finished ∈ pool_workers p → pool_queue p = []).

(** ** Ruleset fetcher and [main] *)

Record args := Args {
  arg_list : bool;
  arg_add_domain : option string;
  arg_delete_domain : option string;
  arg_workers : Z
}.

Definition EMPTY_LIST_MSG : string :=
  "* Empty domain list, use --add-domain domain.tld to register one".

Section Script.

(** [json.loads] restricted to the values the script expects, arrays of
    strings; [None] when it raises.  The decoder belongs to Python's
    library, so the development holds for any such function. *)
Variable json_loads : string → option (list string).

(** [l[i]], raising [IndexError] out of range. *)
Definition item (l : list string) (i : nat) : M string :=
  match l !! i with
  | Some x => ret x
  | None => raise IndexError
  end.

Definition extract_domains_from_rule (rules : string) : M (list string) :=
  head ← item (PyStr.split "*/" rules) 0;
  segment ← item (PyStr.splitn "---" 2 head) 1;
  match json_loads segment with
  | Some doms => ret doms
  | None => raise JSONDecodeError
  end.

(** The [async for] of [get_rulesets] inside its [try]: [limit] bounds
    the number of objects the iterator hands out; an [APIError] ends the
    loop in the [except] clause, any other exception propagates. *)
Fixpoint get_rulesets_loop (limit : nat) (it : list (ruleset_obj + string))
    (rulesets : gmap string ruleset) : M (gmap string ruleset) :=
  match limit, it with
  | S limit', inl o :: it' =>
      entity ← item (PyStr.split RULESET_PREFIX (obj_name o)) 1;
      doms ← extract_domains_from_rule (obj_rules o);
      get_rulesets_loop limit' it'
        (<[entity := {| rs_id := obj_id o; rs_name := obj_name o;
                        rs_rules := obj_rules o; rs_domains := doms |}]> rulesets)
  | S _, inr e :: _ =>
      print ("Error retrieving " +:+ RULESET_PREFIX +:+ "* rulesets: " +:+ e);;
      ret rulesets
  | _, _ => ret rulesets
  end.

Definition get_rulesets : M (gmap string ruleset) :=
  it ← ask listing;
  get_rulesets_loop 10 it ∅.

(** The check of one template file at the start of [main]. *)
Definition verify_template (name : string) : M unit :=
  template_name ← template_path (name +:+ ".yara");
  found ← path_exists template_name;
  if negb found
  then print ("ERROR: file " +:+ template_name +:+ " not found.");; sys_exit 1
  else ret tt.

(** Lines 195-211 of [main]. *)
Definition synchronize (a : args) (rulesets : gmap string ruleset)
    (v : locals) : M unit :=
  if bool_decide (new_domain_list v ≠ domains v) then
    print "Updating monitored list:";;
    for_each (new_domain_list v) (λ domain, print ("- " +:+ domain));;
    let queue := [] in
    queue ← build_rulesets queue rulesets (new_domain_list v);
    run_workers (Z.to_nat (arg_workers a)) queue;;
    ret tt
  else print "Nothing to do".

(** Lines 167-211 of [main], once the rulesets are fetched. *)
Definition main_with (a : args) (rulesets : gmap string ruleset) : M unit :=
  if bool_decide (rulesets = ∅) && negb (truthy (arg_add_domain a))
  then print EMPTY_LIST_MSG;; sys_exit 1
  else
    let doms := from_option rs_domains [] (rulesets !! "url") in
    if arg_list a then
      if bool_decide (doms = []) then print EMPTY_LIST_MSG;; sys_exit 0
      else
        print "Currently monitored domains:";;
        for_each doms (λ domain, print ("- " +:+ domain));;
        sys_exit 0
    else
      match reconcile doms (arg_add_domain a) (arg_delete_domain a) with
      | NotFound d _ => print ("* " +:+ d +:+ " not in list");; sys_exit 1
      | Reconciled v => synchronize a rulesets v
      end.

Definition main (a : args) : M unit :=
  for_each (RULESET_ENTITY ++ ["_body"]) verify_template;;
  key ← ask api_key;
  match key with
  | None => print ("Please set " +:+ API_KEY_ENV_VAR +:+ " environment variable")
  | Some _ =>
      rulesets ← get_rulesets;
      main_with a rulesets
  end.

End Script.

(** ** Notions used to state the properties *)

(** The world after [lines] were printed and the writes [cs] issued. *)
Definition emit (lines : list string) (cs : list call) (w : world) : world :=
  {| template_dir := template_dir w; templates := templates w;
     api_key := api_key w; listing := listing w;
     patch_reply := patch_reply w; post_reply := post_reply w;
     stdout := stdout w ++ lines; calls := calls w ++ cs |}.

(** The line [upload_one] prints for a task in a given world. *)
Definition report_of (w : world) (t : task) : string :=
  match task_id t with
  | Some (String c i) =>
      match patch_reply w ("/intelligence/hunting_rulesets/" +:+ String c i)
              (task_rules t) with
      | None => "Ruleset " +:+ task_name t +:+ " [" +:+ RULESET_LINK
                  +:+ String c i +:+ "] updated."
      | Some e => "Error updating " +:+ task_name t +:+ ": " +:+ e
      end
  | _ =>
      match post_reply w (task_name t) (task_entity t) (task_rules t) with
      | inl id => "Ruleset " +:+ task_name t +:+ " [" +:+ RULESET_LINK
                    +:+ id +:+ "] created."
      | inr e => "Error saving " +:+ task_name t +:+ ": " +:+ e
      end
  end.

(** The pieces of a text put one after the other. *)
Fixpoint join (pieces : list string) : string :=
  match pieces with
  | [] => EmptyString
  | x :: pieces' => x +:+ join pieces'
  end.

(** The text [render_template] returns, given the contents of the two
    template files. *)
Definition rendered (body rule_block : string) (doms : list string) : string :=
  (PyStr.replace "${domain_list_json}" (Json.dumps_indent1 doms) body +:+ Json.nl)
  +:+ join ((λ d, render_rule_block rule_block d +:+ Json.nl) <$> doms).

(** All five template files are there: the shared body with text [body],
    and for each kind [e] the text [rule e]. *)
Definition templates_at (w : world) (body : string) (rule : string → string) : Prop :=
  templates w !! path_join (template_dir w) "_body.yara" = Some body ∧
  ∀ e, e ∈ RULESET_ENTITY →
       templates w !! path_join (template_dir w) (e +:+ ".yara") = Some (rule e).

(** The task [build_rulesets] makes for one kind. *)
Definition task_for (rulesets : gmap string ruleset) (body : string)
    (rule : string → string) (doms : list string) (e : string) : task :=
  {| task_name := RULESET_PREFIX +:+ e; task_entity := e;
     task_rules := rendered body (rule e) doms;
     task_id := rs_id <$> rulesets !! e |}.

(** The lines [synchronize] prints before it builds the tasks. *)
Definition update_lines (new : list string) : list string :=
  "Updating monitored list:" :: (String.append "- " <$> new).

(** A rule template seen as a sequence of pieces: plain text and the two
    placeholders. *)
Inductive piece :=
| Text (s : string)
| RawDomain
| EscapedDomain.

Definition piece_source (p : piece) : string :=
  match p with
  | Text s => s
  | RawDomain => "${domain}"
  | EscapedDomain => "${domain_escaped}"
  end.

Definition piece_value (domain : string) (p : piece) : string :=
  match p with
  | Text s => s
  | RawDomain => domain
  | EscapedDomain => domain_escaped domain
  end.

(** The text after the first of the two replacements. *)
Definition after_raw (domain : string) (p : piece) : string :=
  match p with
  | Text s => s
  | RawDomain => domain
  | EscapedDomain => "${domain_escaped}"
  end.

Definition plain_piece (p : piece) : bool :=
  match p with
  | Text s => negb (PyStr.has_char "$" s)
  | _ => true
  end.

(** ** A small installation, for running the model

    A template directory that follows the header convention of the
    specification (a comment whose second [---] segment is the JSON list),
    and a remote service that accepts every write. *)

Definition demo_body : string :=
  "/*" +:+ Json.nl +:+ "---" +:+ Json.nl +:+ "${domain_list_json}" +:+ Json.nl
  +:+ "---" +:+ Json.nl +:+ "*/" +:+ Json.nl.

Definition demo_rule (kind : string) : string :=
  "rule " +:+ kind +:+ "_${domain_escaped} { /* ${domain} */ }".

Definition demo_templates : gmap string string :=
  list_to_map
    (("nw/_body.yara", demo_body)
       :: ((λ e, ("nw/" +:+ e +:+ ".yara", demo_rule e)) <$> RULESET_ENTITY)).

Definition demo_world (it : list (ruleset_obj + string)) : world :=
  {| template_dir := "nw"; templates := demo_templates; api_key := Some "key";
     listing := it;
     patch_reply := λ _ _, None; post_reply := λ _ _ _, inl "fresh";
     stdout := []; calls := [] |}.

(** The url ruleset as the script itself would have stored it for a list
    of domains. *)
Definition demo_url_ruleset (doms : list string) : ruleset_obj :=
  {| obj_id := "u1"; obj_name := RULESET_PREFIX +:+ "url";
     obj_rules := rendered demo_body (demo_rule "url") doms |}.

(** What the fetcher makes of [demo_url_ruleset doms]. *)
Definition demo_rulesets (doms : list string) : gmap string ruleset :=
  {[ "url" := {| rs_id := "u1"; rs_name := RULESET_PREFIX +:+ "url";
                 rs_rules := rendered demo_body (demo_rule "url") doms;
                 rs_domains := doms |} ]}.

(** The installation with other template files, or another API key. *)
Definition with_templates (files : gmap string string) (w : world) : world :=
  {| template_dir := template_dir w; templates := files;
     api_key := api_key w; listing := listing w;
     patch_reply := patch_reply w; post_reply := post_reply w;
     stdout := stdout w; calls := calls w |}.

Definition with_api_key (key : option string) (w : world) : world :=
  {| template_dir := template_dir w; templates := templates w;
     api_key := key; listing := listing w;
     patch_reply := patch_reply w; post_reply := post_reply w;
     stdout := stdout w; calls := calls w |}.

(** ** Notions used for the header of a ruleset *)

(** A string of JSON white space. *)
Fixpoint all_space (s : string) : bool :=
  match s with
  | EmptyString => true
  | String c s' => Json.is_space c && all_space s'
  end.

(** [split] on [sep] goes over the stretch [u] without cutting, whatever
    comes behind. *)
Definition passes (sep u : string) : Prop :=
  ∀ left cur t,
    left ≠ Some 0 →
    PyStr.split_go sep left 0 cur (u +:+ t)
    = PyStr.split_go sep left 0 (String.rev_app u cur) t.

(** A character that the JSON encoder writes as itself and that no escape
    contains. *)
Definition plain_char (x : ascii) : Prop :=
  ∀ c, if Ascii.eqb c x then Json.escape_char c = String x EmptyString
       else PyStr.has_char x (Json.escape_char c) = false.

(** A body template that follows the header convention: an introduction,
    then the placeholder between two [---] lines, then the end of the
    comment. *)
Definition header_body (intro sp0 sp1 sp2 sp3 rest : string) : string :=
  intro +:+ sp0 +:+ "---" +:+ sp1 +:+ "${domain_list_json}" +:+ sp2
  +:+ "---" +:+ sp3 +:+ "*/" +:+ rest.


(** * Properties *)

(** ** The model on small inputs *)

Example replace_ex1 : PyStr.replace "aa" "b" "aaa" = "ba".
Proof. reflexivity. Qed.
Example replace_ex2 : PyStr.replace EmptyString "-" "abc" = "-a-b-c-".
Proof. reflexivity. Qed.
Example split_ex1 : PyStr.splitn "---" 2 "x---y---z---w" = ["x"; "y"; "z---w"].
Proof. reflexivity. Qed.
Example split_ex2 : PyStr.split "*/" EmptyString = [EmptyString].
Proof. reflexivity. Qed.
Example split_ex3 : PyStr.splitn "---" 2 "a--b" = ["a--b"].
Proof. reflexivity. Qed.
Example domain_escaped_ex : domain_escaped "x.y-z.com" = "x_y_z_com".
Proof. reflexivity. Qed.
Example dumps_ex1 :
  Json.dumps_indent1 ["a.com"; "b.com"] =
  "[" +:+ Json.nl +:+ " " +:+ Json.quote +:+ "a.com" +:+ Json.quote +:+ ","
      +:+ Json.nl +:+ " " +:+ Json.quote +:+ "b.com" +:+ Json.quote
      +:+ Json.nl +:+ "]".
Proof. reflexivity. Qed.
Example canonical_ex : canonical ["b.com"; "a.com"; "b.com"] = ["a.com"; "b.com"].
Proof. reflexivity. Qed.
Example reconcile_ex1 :
  reconcile ["b.com"] (Some "a.com") None =
  Reconciled (Locals ["b.com"] ["a.com"; "b.com"]).
Proof. reflexivity. Qed.
Example reconcile_ex2 :
  reconcile ["a.com"; "b.com"] None (Some "c.com") =
  NotFound "c.com" (Locals ["a.com"; "b.com"] ["a.com"; "b.com"]).
Proof. reflexivity. Qed.

Example loads_ex : Json.loads "[ ]x" = None.
Proof. reflexivity. Qed.

(** The header of a rendered ruleset is read back by the fetcher. *)
Example extract_domains_ex :
  (extract_domains_from_rule Json.loads
     (rendered demo_body (demo_rule "url") ["a.com"; "b.com"]) (demo_world [])).1
  = Returned ["a.com"; "b.com"].
Proof. vm_compute. reflexivity. Qed.

(** ** The canonical list *)

Section Canonical.

Implicit Types l : list string.

Lemma canonical_perm l : canonical l ≡ₚ remove_dups l.
Proof. apply merge_sort_Permutation. Qed.

Lemma elem_of_canonical l x : x ∈ canonical l ↔ x ∈ l.
Proof. by rewrite canonical_perm, elem_of_remove_dups. Qed.

Lemma canonical_sorted l : Sorted String.le (canonical l).
Proof. apply (Sorted_merge_sort _). Qed.

Lemma canonical_NoDup l : NoDup (canonical l).
Proof. rewrite canonical_perm. apply NoDup_remove_dups. Qed.

(** Two sorted lists without duplicates that hold the same strings are
    the same list. *)
Lemma sorted_NoDup_unique l1 l2 :
  Sorted String.le l1 → Sorted String.le l2 → NoDup l1 → NoDup l2 →
  (∀ x, x ∈ l1 ↔ x ∈ l2) → l1 = l2.
Proof.
  intros S1 S2 N1 N2 E.
  apply (Sorted_unique String.le); [done..|].
  by apply NoDup_Permutation.
Qed.

(** The canonical list depends on the set of strings only. *)
Lemma canonical_ext l1 l2 :
  (∀ x, x ∈ l1 ↔ x ∈ l2) → canonical l1 = canonical l2.
Proof.
  intros E. apply sorted_NoDup_unique;
    auto using canonical_sorted, canonical_NoDup.
  intros x. by rewrite !elem_of_canonical.
Qed.

Lemma canonical_fixed l :
  Sorted String.le l → NoDup l → canonical l = l.
Proof.
  intros Hs Hn. apply sorted_NoDup_unique;
    auto using canonical_sorted, canonical_NoDup.
  apply elem_of_canonical.
Qed.

Lemma canonical_idem l : canonical (canonical l) = canonical l.
Proof. apply canonical_fixed; auto using canonical_sorted, canonical_NoDup. Qed.

(** Whatever order [list(set(l))] comes in, sorting gives the same list. *)
Lemma canonical_order_irrelevant l l' :
  l' ≡ₚ list_of_set l → py_sort l' = canonical l.
Proof.
  intros Hp. apply sorted_NoDup_unique.
  - apply (Sorted_merge_sort _).
  - apply canonical_sorted.
  - unfold py_sort. rewrite merge_sort_Permutation, Hp. apply NoDup_remove_dups.
  - apply canonical_NoDup.
  - intros x. unfold py_sort, canonical, py_sort.
    by rewrite !merge_sort_Permutation, Hp.
Qed.

(** Ascending without duplicates is strictly ascending. *)
Lemma canonical_strict l :
  StronglySorted (strict String.le) (canonical l).
Proof.
  pose proof (canonical_NoDup l) as Hn.
  pose proof (Sorted_StronglySorted _ _ (canonical_sorted l)) as Hs.
  induction Hs as [|x k Hs IH Hx]; [constructor|].
  apply NoDup_cons in Hn as [Hx' Hn].
  constructor; [by apply IH|].
  rewrite Forall_forall in Hx |- *. intros y Hy. split; [by apply Hx|].
  intros Hyx. assert (x = y) by (apply (anti_symm String.le); auto).
  congruence.
Qed.

Lemma py_remove_not_in (x : string) l : x ∉ l → py_remove x (l ++ [x]) = l.
Proof.
  induction l as [|y l IH]; simpl; intros Hx.
  - by rewrite decide_True.
  - apply not_elem_of_cons in Hx as [Hne Hx].
    rewrite decide_False by done. by rewrite IH.
Qed.

End Canonical.

(** ** The reconciler *)

Lemma truthy_Some (d : string) : truthy (Some d) = bool_decide (d ≠ EmptyString).
Proof. by destruct d. Qed.

Lemma reconcile_add_only old d :
  reconcile old (Some d) None =
  Reconciled {| domains := old;
                new_domain_list :=
                  canonical (if truthy (Some d) then old ++ [d] else old) |}.
Proof. unfold reconcile. by destruct (truthy (Some d)). Qed.


Lemma reconcile_new_canonical old add del v :
  reconcile old add del = Reconciled v →
  ∃ l, new_domain_list v = canonical l.
Proof.
  unfold reconcile. intros H.
  destruct add as [a|], del as [d|];
    repeat (match goal with
            | H : context [if ?b then _ else _] |- _ => destruct b
            end);
    simplify_eq/=; eauto.
Qed.

(** ** Strings *)

Section Strings.

Implicit Types s t u : string.

Lemma sapp_assoc s t u : (s +:+ t) +:+ u = s +:+ (t +:+ u).
Proof. induction s; simpl; by f_equal. Qed.

Lemma sapp_empty_r s : s +:+ EmptyString = s.
Proof. induction s; simpl; by f_equal. Qed.

Lemma prefix_app s t : String.prefix s (s +:+ t) = true.
Proof.
  induction s as [|c s IH]; simpl; [by destruct t|].
  destruct (Ascii.ascii_dec c c); [done|congruence].
Qed.

Lemma prefix_elim s t : String.prefix s t = true → ∃ u, t = s +:+ u.
Proof.
  revert t. induction s as [|c s IH]; intros t H; [by exists t|].
  destruct t as [|c' t]; [done|]. simpl in H.
  destruct (Ascii.ascii_dec c c') as [->|]; [|done].
  destruct (IH _ H) as [u ->]. by exists u.
Qed.

Lemma occurs_startswith sub s :
  PyStr.startswith sub s = true → PyStr.occurs sub s = true.
Proof. intros H. destruct s; cbn [PyStr.occurs]; by rewrite H. Qed.

Lemma occurs_here sub t : PyStr.occurs sub (sub +:+ t) = true.
Proof. apply occurs_startswith, prefix_app. Qed.

Lemma contains_occurs sub s : PyStr.contains sub s ↔ PyStr.occurs sub s = true.
Proof.
  split.
  - intros (pre & post & ->). induction pre as [|c pre IH].
    + simpl. apply occurs_here.
    + simpl. simpl in IH. by rewrite IH, orb_true_r.
  - unfold PyStr.startswith.
    induction s as [|c s IH]; cbn [PyStr.occurs]; rewrite orb_true_iff.
    + intros [H|?]; [|done]. apply prefix_elim in H as [u ->].
      by exists EmptyString, u.
    + intros [H|H].
      * apply prefix_elim in H as [u ->]. by exists EmptyString, u.
      * destruct (IH H) as (pre & post & ->). by exists (String c pre), post.
Qed.

(** *** [replace] *)

Lemma replace_go_skip old new s t :
  PyStr.replace_go old new (String.length s) (s +:+ t)
  = PyStr.replace_go old new 0 t.
Proof.
  induction s as [|c s IH]; simpl; [|done].
  destruct t; [done|]. reflexivity.
Qed.

(** At an occurrence, the replacement is written and the scan goes on
    behind the occurrence. *)
Lemma replace_go_match c old new t :
  PyStr.replace_go (String c old) new 0 (String c old +:+ t)
  = new +:+ PyStr.replace_go (String c old) new 0 t.
Proof.
  change (String c old +:+ t) with (String c (old +:+ t)).
  cbn [PyStr.replace_go]. unfold PyStr.startswith.
  change (String c (old +:+ t)) with (String c old +:+ t).
  rewrite prefix_app. f_equal.
  cbn [PyStr.len String.length]. rewrite Nat.sub_1_r. simpl Nat.pred.
  apply replace_go_skip.
Qed.

(** A stretch of text without the first character of [old] is copied. *)
Lemma replace_go_copy c old new s t :
  PyStr.has_char c s = false →
  PyStr.replace_go (String c old) new 0 (s +:+ t)
  = s +:+ PyStr.replace_go (String c old) new 0 t.
Proof.
  induction s as [|c' s IH]; simpl; [done|].
  intros H. apply orb_false_iff in H as [Hc Hs].
  apply Ascii.eqb_neq in Hc. destruct (Ascii.ascii_dec c c'); [done|].
  by rewrite IH.
Qed.

(** If [old] occurs in [s], then [new] occurs in the result. *)
Lemma replace_contains c old new s :
  PyStr.contains (String c old) s →
  PyStr.contains new (PyStr.replace (String c old) new s).
Proof.
  intros (pre & post & ->). unfold PyStr.replace.
  induction pre as [|c' pre IH].
  - change (EmptyString +:+ ?x) with x. rewrite replace_go_match.
    by exists EmptyString, (PyStr.replace_go (String c old) new 0 post).
  - change (String c' pre +:+ ?x) with (String c' (pre +:+ x)).
    cbn [PyStr.replace_go].
    destruct (PyStr.startswith _ _).
    + by exists EmptyString,
        (PyStr.replace_go (String c old) new (PyStr.len (String c old) - 1)
           (pre +:+ String c old +:+ post)).
    + destruct IH as (p & q & ->). by exists (String c' p), q.
Qed.

End Strings.

(** ** The JSON text of a list is read back as that list *)

Section JsonRoundTrip.

Import Json.

Lemma loads_go_run st acc s :
  loads_go st acc s
  = match run (st, acc) s with
    | (LEnd, acc') => Some (reverse acc')
    | _ => None
    end.
Proof.
  revert st acc. induction s as [|c s IH]; intros st acc; [done|].
  cbn [loads_go run fst snd]. destruct (lstep st acc c) as [st' acc'].
  apply IH.
Qed.

Lemma run_app p s t : run p (s +:+ t) = run (run p s) t.
Proof. revert p. induction s as [|c s IH]; intros p; [done|]. apply IH. Qed.

(** The escape of a character is read back as the character. *)
Lemma run_escape_char c cur acc :
  run (LStr cur, acc) (escape_char c) = (LStr (String c cur), acc).
Proof. destruct c as [[] [] [] [] [] [] [] []]; reflexivity. Qed.

Lemma run_escape s cur acc :
  run (LStr cur, acc) (escape s) = (LStr (String.rev_app s cur), acc).
Proof.
  revert cur. induction s as [|c s IH]; intros cur; [done|].
  cbn [escape]. by rewrite run_app, run_escape_char, IH.
Qed.

Lemma rev_app_rev_app s t u :
  String.rev_app (String.rev_app s t) u = String.rev_app t (s +:+ u).
Proof.
  revert t u. induction s as [|c s IH]; intros t u; [done|].
  cbn [String.rev_app]. rewrite IH. done.
Qed.

Lemma rev_rev s : String.rev (String.rev s) = s.
Proof.
  unfold String.rev. rewrite rev_app_rev_app. cbn [String.rev_app].
  apply sapp_empty_r.
Qed.

(** An item of the array, read where an item may start. *)
Lemma run_item st s acc :
  st = LOpen ∨ st = LComma →
  run (st, acc) (nl +:+ " " +:+ dumps_str s) = (LAfter, s :: acc).
Proof.
  intros Hst. unfold dumps_str. rewrite !run_app.
  assert (run (st, acc) nl = (st, acc)) as -> by (by destruct Hst as [->| ->]).
  assert (run (st, acc) " " = (st, acc)) as -> by (by destruct Hst as [->| ->]).
  assert (run (st, acc) quote = (LStr EmptyString, acc)) as ->
    by (by destruct Hst as [->| ->]).
  rewrite run_escape. cbn [run quote lstep fst snd].
  change (String.rev_app s EmptyString) with (String.rev s).
  replace (ord (Ascii.ascii_of_N 34) =? 34)%N with true by reflexivity.
  by rewrite rev_rev.
Qed.

Lemma run_items st l acc :
  st = LOpen ∨ st = LComma → l ≠ [] →
  run (st, acc) (dumps_items l) = (LAfter, reverse l ++ acc).
Proof.
  revert st acc. induction l as [|s l IH]; intros st acc Hst Hne; [done|].
  destruct l as [|s' l].
  - cbn [dumps_items]. by rewrite run_item.
  - change (dumps_items (s :: s' :: l))
      with (nl +:+ " " +:+ dumps_str s +:+ "," +:+ dumps_items (s' :: l)).
    rewrite <- (sapp_assoc " "), <- (sapp_assoc nl).
    rewrite run_app, run_item by done.
    rewrite run_app. cbn [run lstep fst snd].
    replace (is_space ",") with false by reflexivity.
    replace (Ascii.eqb "," ",") with true by reflexivity.
    rewrite IH by (auto || done).
    rewrite (reverse_cons (s' :: l) s), <- app_assoc. done.
Qed.

Lemma loads_dumps l : loads (dumps_indent1 l) = Some l.
Proof.
  unfold loads. rewrite loads_go_run.
  destruct l as [|s l]; [done|].
  unfold dumps_indent1. cbn [String.append run lstep fst snd].
  replace (is_space "[") with false by reflexivity.
  replace (Ascii.eqb "[" "[") with true by reflexivity.
  rewrite run_app, run_items by (auto || done).
  change (run (LAfter, reverse (s :: l) ++ []) (nl +:+ "]"))
    with (LEnd, reverse (s :: l) ++ []).
  by rewrite app_nil_r, reverse_involutive.
Qed.

End JsonRoundTrip.

(** ** Running the monad *)

Section Runs.

Lemma emit_nil w : emit [] [] w = w.
Proof. destruct w. unfold emit. simpl. by rewrite !app_nil_r. Qed.

Lemma emit_emit l1 c1 l2 c2 w :
  emit l2 c2 (emit l1 c1 w) = emit (l1 ++ l2) (c1 ++ c2) w.
Proof. unfold emit. simpl. by rewrite !app_assoc. Qed.

Lemma print_run line w : print line w = (Returned tt, emit [line] [] w).
Proof. unfold print, emit. by rewrite app_nil_r. Qed.

Lemma log_call_run c w : log_call c w = (Returned tt, emit [] [c] w).
Proof. unfold log_call, emit. by rewrite app_nil_r. Qed.

Lemma bind_run {A B} (m : M A) (k : A → M B) w a w' :
  m w = (Returned a, w') → (m ≫= k) w = k a w'.
Proof. unfold mbind, M_bind, bind. by intros ->. Qed.

Lemma bind_exit_run {A B} (m : M A) (k : A → M B) w c w' :
  m w = (SysExit c, w') → (m ≫= k) w = (SysExit c, w').
Proof. unfold mbind, M_bind, bind. by intros ->. Qed.

Lemma bind_raise_run {A B} (m : M A) (k : A → M B) w e w' :
  m w = (Raised e, w') → (m ≫= k) w = (Raised e, w').
Proof. unfold mbind, M_bind, bind. by intros ->. Qed.

Lemma for_each_print (f : string → string) l w :
  for_each l (λ x, print (f x)) w = (Returned tt, emit (f <$> l) [] w).
Proof.
  revert w. induction l as [|x l IH]; intros w; simpl.
  - by rewrite emit_nil.
  - erewrite bind_run by apply print_run. by rewrite IH, emit_emit.
Qed.

(** *** The renderer *)

Lemma render_blocks_concat rule_block doms template :
  render_blocks rule_block doms template
  = template +:+ join ((λ d, render_rule_block rule_block d +:+ Json.nl) <$> doms).
Proof.
  revert template. induction doms as [|d doms IH]; intros template.
  - simpl. by rewrite sapp_empty_r.
  - cbn [render_blocks fmap list_fmap join]. rewrite IH.
    by rewrite !sapp_assoc.
Qed.

Lemma render_template_run entity doms w body rule_block :
  templates w !! path_join (template_dir w) "_body.yara" = Some body →
  templates w !! path_join (template_dir w) (entity +:+ ".yara") = Some rule_block →
  render_template entity doms w = (Returned (rendered body rule_block doms), w).
Proof.
  intros Hb Hr. unfold render_template, template_path, read_file, ask,
    mbind, M_bind, bind, mret, M_ret, ret.
  rewrite Hb, Hr. by rewrite render_blocks_concat.
Qed.

(** Rendering reads the two files and leaves the world as it is. *)
Lemma render_template_eval entity doms w :
  render_template entity doms w
  = (match templates w !! path_join (template_dir w) "_body.yara" with
     | None => Raised (FileNotFoundError (path_join (template_dir w) "_body.yara"))
     | Some body =>
         match templates w !! path_join (template_dir w) (entity +:+ ".yara") with
         | None =>
             Raised (FileNotFoundError
                       (path_join (template_dir w) (entity +:+ ".yara")))
         | Some rule_block => Returned (rendered body rule_block doms)
         end
     end, w).
Proof.
  unfold render_template, template_path, read_file, ask,
    mbind, M_bind, bind, mret, M_ret, ret.
  destruct (templates w !! path_join (template_dir w) "_body.yara"); [|done].
  destruct (templates w !! path_join (template_dir w) (entity +:+ ".yara"));
    [|done].
  by rewrite render_blocks_concat.
Qed.

Lemma render_template_world entity doms w r w' :
  render_template entity doms w = (r, w') → w' = w.
Proof. rewrite render_template_eval. by intros [= _ <-]. Qed.

End Runs.

Section Dispatch.

Context (w : world) (body : string) (rule : string → string).
Hypothesis Htpl : templates_at w body rule.

Lemma build_one_run rulesets doms e queue :
  e ∈ RULESET_ENTITY →
  build_one rulesets doms e queue w
  = (Returned (queue ++ [task_for rulesets body rule doms e]), w).
Proof.
  intros He. destruct Htpl as [Hb Hr]. unfold build_one.
  erewrite bind_run by (apply render_template_run; eauto).
  unfold task_for. by destruct (rulesets !! e).
Qed.

Lemma build_loop_run rulesets doms entities queue :
  entities ⊆ RULESET_ENTITY →
  build_loop rulesets doms entities queue w
  = (Returned (queue ++ (task_for rulesets body rule doms <$> entities)), w).
Proof.
  revert queue. induction entities as [|e entities IH]; intros queue Hsub.
  - simpl. by rewrite app_nil_r.
  - cbn [build_loop]. erewrite bind_run.
    2:{ apply build_one_run. apply Hsub. by left. }
    rewrite IH by (intros x Hx; apply Hsub; by right).
    by rewrite <- app_assoc.
Qed.

Lemma build_rulesets_run rulesets doms queue :
  build_rulesets queue rulesets doms w
  = (Returned (queue ++ (task_for rulesets body rule doms <$> RULESET_ENTITY)), w).
Proof. by apply build_loop_run. Qed.

Lemma verify_template_run name :
  is_Some (templates w !! path_join (template_dir w) (name +:+ ".yara")) →
  verify_template name w = (Returned tt, w).
Proof.
  intros H. unfold verify_template, template_path, path_exists, ask,
    mbind, M_bind, bind.
  by rewrite bool_decide_eq_true_2.
Qed.

Lemma verify_templates_run :
  for_each (RULESET_ENTITY ++ ["_body"]) verify_template w = (Returned tt, w).
Proof.
  destruct Htpl as [Hb Hr].
  assert (∀ l, (∀ n, n ∈ l →
                is_Some (templates w !! path_join (template_dir w) (n +:+ ".yara"))) →
               for_each l verify_template w = (Returned tt, w)) as Hall.
  { induction l as [|n l IH]; intros Hl; [done|].
    cbn [for_each]. erewrite bind_run.
    2:{ apply verify_template_run, Hl. by left. }
    apply IH. intros ??. apply Hl. by right. }
  apply Hall. intros n Hn. apply elem_of_app in Hn as [Hn|Hn].
  - rewrite Hr; eauto.
  - apply list_elem_of_singleton in Hn as ->. eauto.
Qed.

End Dispatch.

Section Upload.

Lemma upload_one_run t w :
  upload_one t w = (Returned tt, emit [report_of w t] [call_of t] w).
Proof.
  unfold upload_one, report_of, call_of.
  destruct (task_id t) as [[|c i]|].
  all: erewrite bind_run by apply log_call_run.
  all: unfold ask, mbind, M_bind, bind; cbn [emit patch_reply post_reply].
  all: repeat case_match; by rewrite print_run, emit_emit.
Qed.

Lemma upload_rulesets_run queue w :
  upload_rulesets queue w
  = (Returned [], emit (report_of w <$> queue) (call_of <$> queue) w).
Proof.
  revert w. induction queue as [|t queue IH]; intros w.
  - simpl. by rewrite emit_nil.
  - cbn [upload_rulesets]. erewrite bind_run by apply upload_one_run.
    rewrite IH, emit_emit. done.
Qed.

(** Without a worker the queue stays as it is; with at least one worker
    every task is written once, in the order of the queue. *)
Lemma run_workers_none queue w : run_workers 0 queue w = (Returned queue, w).
Proof. done. Qed.

Lemma run_workers_empty n w : run_workers n [] w = (Returned [], w).
Proof.
  induction n as [|n IH]; [done|]. cbn [run_workers].
  erewrite bind_run by apply upload_rulesets_run.
  by rewrite emit_nil.
Qed.

Lemma run_workers_some n queue w :
  run_workers (S n) queue w
  = (Returned [], emit (report_of w <$> queue) (call_of <$> queue) w).
Proof.
  cbn [run_workers]. erewrite bind_run by apply upload_rulesets_run.
  apply run_workers_empty.
Qed.

End Upload.

(** ** The workers in any schedule *)

Section Pool.

Implicit Types (ws : list worker) (p : pool).

Lemma in_flight_insert ws i x y :
  ws !! i = Some x →
  in_flight (<[i := y]> ws) ++ in_flight [x] ≡ₚ in_flight ws ++ in_flight [y].
Proof.
  intros Hi. pose proof (lookup_lt_Some _ _ _ Hi) as Hlt.
  rewrite <- (take_drop_middle ws i x Hi) at 2.
  rewrite insert_take_drop by done.
  unfold in_flight. rewrite !omap_app. cbn [omap list_omap].
  destruct x, y; cbn; rewrite ?app_nil_r; try done;
    rewrite <- ?app_assoc; cbn; solve_Permutation.
Qed.

Lemma weight_insert ws i x y :
  ws !! i = Some x →
  sum_list (worker_weight <$> <[i := y]> ws) + worker_weight x
  = sum_list (worker_weight <$> ws) + worker_weight y.
Proof.
  revert i. induction ws as [|z ws IH]; intros i Hi; [done|].
  destruct i as [|i]; simpl in *.
  - simplify_eq. lia.
  - specialize (IH _ Hi). unfold fmap in IH. lia.
Qed.

(** Every step uses up some of the measure: no schedule goes on for ever. *)
Lemma pool_step_measure p p' :
  pool_step p p' → pool_measure p' < pool_measure p.
Proof.
  intros [i t q ws cs ds Hi|i t q ws cs ds Hi|i ws cs ds Hi];
    unfold pool_measure; cbn [pool_queue pool_workers length].
  - pose proof (weight_insert _ _ _ (Waiting t) Hi).
    cbn [worker_weight] in *. lia.
  - pose proof (weight_insert _ _ _ Ready Hi).
    cbn [worker_weight] in *. lia.
  - pose proof (weight_insert _ _ _ Finished Hi).
    cbn [worker_weight] in *. lia.
Qed.

Lemma pool_step_wf : well_founded (flip pool_step).
Proof.
  apply (wf_projected (<) pool_measure); [|apply lt_wf].
  intros p p' Hstep. by apply pool_step_measure.
Qed.

(** A pool that is not finished can take a step. *)
Lemma pool_progress p :
  ¬ pool_finished p → ∃ p', pool_step p p'.
Proof.
  intros Hnf. apply not_Forall_Exists in Hnf;
    [|intros x; destruct x; (by left) || (by right)].
  apply Exists_exists in Hnf as (x & Hx & Hne).
  apply list_elem_of_lookup in Hx as [i Hi].
  destruct p as [q ws cs ds]. cbn [pool_workers] in *.
  destruct x as [|t|].
  - destruct q as [|t q]; eexists; [by eapply step_leave|by eapply step_take].
  - eexists. by eapply step_reply.
  - by destruct Hne.
Qed.

Lemma pool_inv_start n queue : pool_inv n queue (pool_start n queue).
Proof.
  exists []. cbn [pool_start pool_queue pool_workers pool_calls pool_done].
  split; [done|]. split; [done|]. split; [|split].
  - cbn [app]. by induction n.
  - apply length_replicate.
  - by intros [[=] _]%elem_of_replicate.
Qed.

Lemma finished_insert ws i x :
  ws !! i = Some x → x ≠ Finished →
  ∀ y, y ≠ Finished → Finished ∈ <[i := y]> ws → Finished ∈ ws.
Proof.
  intros Hi Hx y Hy Hin. apply list_elem_of_lookup in Hin as [j Hj].
  destruct (decide (i = j)) as [->|Hne].
  - rewrite list_lookup_insert_eq in Hj by (by eapply lookup_lt_Some).
    congruence.
  - rewrite list_lookup_insert_ne in Hj by done.
    by eapply list_elem_of_lookup_2.
Qed.

Lemma pool_inv_step n queue p p' :
  pool_inv n queue p → pool_step p p' → pool_inv n queue p'.
Proof.
  intros (taken & Hq & Hc & Hd & Hn & Hf) Hstep.
  destruct Hstep as [i t q ws cs ds Hi|i t q ws cs ds Hi|i ws cs ds Hi];
    cbn [pool_queue pool_workers pool_calls pool_done] in *.
  - exists (taken ++ [t]). cbn [pool_queue pool_workers pool_calls pool_done]. 
    split; [|split; [|split; [|split]]].
    + by rewrite <- app_assoc.
    + by rewrite fmap_app, Hc.
    + pose proof (in_flight_insert ws i Ready (Waiting t) Hi) as Hp.
      cbn in Hp. rewrite app_nil_r in Hp. rewrite Hp, Hd.
      by rewrite app_assoc.
    + by rewrite length_insert.
    + intros Hin. eapply finished_insert in Hin; [|done..].
      by specialize (Hf Hin).
  - exists taken. cbn [pool_queue pool_workers pool_calls pool_done]. 
    split; [|split; [|split; [|split]]]; [done..| | |].
    + pose proof (in_flight_insert ws i (Waiting t) Ready Hi) as Hp.
      cbn in Hp. rewrite app_nil_r in Hp.
      rewrite Hd, <- Hp. solve_Permutation.
    + by rewrite length_insert.
    + intros Hin. eapply finished_insert in Hin; [|done..]. auto.
  - exists taken. cbn [pool_queue pool_workers pool_calls pool_done]. 
    split; [|split; [|split; [|split]]]; [done..| | |done].
    + pose proof (in_flight_insert ws i Ready Finished Hi) as Hp.
      cbn in Hp. rewrite !app_nil_r in Hp. by rewrite Hp.
    + by rewrite length_insert.
Qed.

Lemma pool_inv_rtc n queue p :
  rtc pool_step (pool_start n queue) p → pool_inv n queue p.
Proof.
  revert p. apply rtc_ind_r.
  - apply pool_inv_start.
  - intros p1 p2 _ Hstep IH. by apply pool_inv_step with p1.
Qed.

Lemma in_flight_finished ws :
  Forall (λ x, x = Finished) ws → in_flight ws = [].
Proof. induction 1 as [|x ws -> _ IH]; [done|]. exact IH. Qed.

(** With at least one worker, when all workers have left their loops the
    queue is empty, the calls issued are those of the tasks in queue order,
    and every task has been reported once; the calls are those of
    [run_workers]. *)
Lemma pool_final n queue p w :
  0 < n →
  rtc pool_step (pool_start n queue) p →
  pool_finished p →
  pool_queue p = []
  ∧ pool_calls p = call_of <$> queue
  ∧ pool_done p ≡ₚ queue
  ∧ calls (run_workers n queue w).2 = calls w ++ pool_calls p.
Proof.
  intros Hn Hrtc Hfin.
  destruct (pool_inv_rtc _ _ _ Hrtc) as (taken & Hq & Hc & Hd & Hlen & Hf).
  assert (pool_queue p = []) as Hempty.
  { apply Hf. unfold pool_finished in Hfin.
    destruct (pool_workers p) as [|x ws]; [simpl in Hlen; lia|].
    apply Forall_cons in Hfin as [-> _]. by left. }
  rewrite Hempty, app_nil_r in Hq. subst taken.
  rewrite (in_flight_finished _ Hfin), app_nil_r in Hd.
  repeat split; [done..|].
  destruct n as [|n]; [lia|]. by rewrite run_workers_some, Hc.
Qed.

End Pool.

Section Fetch.

Variable json_loads : string → option (list string).

(** Indexing and the extraction of the header read no part of the world. *)
Lemma item_run l i w :
  item l i w = (match l !! i with
                | Some x => Returned x
                | None => Raised IndexError
                end, w).
Proof. unfold item. by destruct (l !! i). Qed.

Lemma extract_domains_world rules w r w' :
  extract_domains_from_rule json_loads rules w = (r, w') → w' = w.
Proof.
  unfold extract_domains_from_rule, item, mbind, M_bind, bind, ret, raise.
  repeat case_match; intros ?; by simplify_eq.
Qed.

(** One round of the loop on an object. *)
Lemma get_rulesets_loop_obj limit o it rulesets w :
  get_rulesets_loop json_loads (S limit) (inl o :: it) rulesets w
  = match PyStr.split RULESET_PREFIX (obj_name o) !! 1 with
    | None => (Raised IndexError, w)
    | Some entity =>
        match (extract_domains_from_rule json_loads (obj_rules o) w).1 with
        | Returned doms =>
            get_rulesets_loop json_loads limit it
              (<[entity := {| rs_id := obj_id o; rs_name := obj_name o;
                              rs_rules := obj_rules o; rs_domains := doms |}]>
                 rulesets) w
        | SysExit c => (SysExit c, w)
        | Raised e => (Raised e, w)
        end
    end.
Proof.
  cbn [get_rulesets_loop]. unfold mbind, M_bind, bind at 1.
  rewrite item_run. destruct (_ !! 1); [|done].
  unfold bind.
  destruct (extract_domains_from_rule _ _ w) as [r w'] eqn:E.
  apply extract_domains_world in E as ->. by destruct r.
Qed.

(** The fetcher only prints: it issues no write and leaves the rest of
    the world alone. *)
Lemma get_rulesets_loop_world limit it rulesets w r w' :
  get_rulesets_loop json_loads limit it rulesets w = (r, w') →
  ∃ lines, w' = emit lines [] w.
Proof.
  revert it rulesets. induction limit as [|limit IH]; intros it rulesets.
  { destruct it; intros [= <- <-]; exists []; by rewrite emit_nil. }
  destruct it as [|[o|e] it].
  - intros [= <- <-]; exists []; by rewrite emit_nil.
  - rewrite get_rulesets_loop_obj.
    repeat case_match; try (intros [= <- <-]; exists []; by rewrite emit_nil).
    apply IH.
  - cbn [get_rulesets_loop]. erewrite bind_run by apply print_run.
    intros [= <- <-]. by eexists.
Qed.

Lemma get_rulesets_world w r w' :
  get_rulesets json_loads w = (r, w') → ∃ lines, w' = emit lines [] w.
Proof.
  unfold get_rulesets, ask, mbind, M_bind, bind.
  apply get_rulesets_loop_world.
Qed.

(** A run over objects alone prints nothing. *)
Lemma get_rulesets_loop_objs_world limit objs rulesets w r w' :
  get_rulesets_loop json_loads limit (inl <$> objs) rulesets w = (r, w') →
  w' = w.
Proof.
  revert objs rulesets. induction limit as [|limit IH]; intros objs rulesets.
  { destruct objs; by intros [= <- <-]. }
  destruct objs as [|o objs]; [by intros [= <- <-]|].
  cbn [fmap list_fmap]. rewrite get_rulesets_loop_obj.
  repeat case_match; try by intros [= <- <-].
  apply IH.
Qed.

(** An [APIError] behind objects that were taken in: the loop returns
    what the objects gave, after the report. *)
Lemma get_rulesets_loop_error limit objs e rest rulesets w m :
  length objs < limit →
  get_rulesets_loop json_loads limit (inl <$> objs) rulesets w = (Returned m, w) →
  get_rulesets_loop json_loads limit ((inl <$> objs) ++ inr e :: rest) rulesets w
  = (Returned m,
     emit ["Error retrieving " +:+ RULESET_PREFIX +:+ "* rulesets: " +:+ e] [] w).
Proof.
  revert limit rulesets. induction objs as [|o objs IH]; intros limit rulesets Hlen.
  - destruct limit as [|limit]; [simpl in Hlen; lia|].
    intros [= ->]. cbn [fmap list_fmap app get_rulesets_loop].
    erewrite bind_run by apply print_run. done.
  - destruct limit as [|limit]; [simpl in Hlen; lia|].
    cbn [fmap list_fmap app]. rewrite !get_rulesets_loop_obj.
    repeat case_match; try done.
    apply IH. simpl in Hlen. lia.
Qed.

End Fetch.

Section MainRuns.

Variable json_loads : string → option (list string).

Lemma templates_at_emit lines cs w body rule :
  templates_at w body rule → templates_at (emit lines cs w) body rule.
Proof. done. Qed.

Lemma synchronize_same a rulesets v w :
  new_domain_list v = domains v →
  synchronize a rulesets v w = (Returned tt, emit ["Nothing to do"] [] w).
Proof.
  intros E. unfold synchronize. rewrite bool_decide_eq_false_2 by (by intros ?).
  apply print_run.
Qed.

Lemma synchronize_differ a rulesets v w body rule :
  templates_at w body rule →
  new_domain_list v ≠ domains v →
  let queue := task_for rulesets body rule (new_domain_list v) <$> RULESET_ENTITY in
  synchronize a rulesets v w
  = (Returned tt,
     if decide (0 < arg_workers a)%Z
     then emit (update_lines (new_domain_list v) ++ (report_of w <$> queue))
               (call_of <$> queue) w
     else emit (update_lines (new_domain_list v)) [] w).
Proof.
  intros Htpl Hne queue. unfold synchronize.
  rewrite bool_decide_eq_true_2 by done.
  erewrite bind_run by apply print_run.
  erewrite bind_run by apply (for_each_print (String.append "- ")).
  rewrite emit_emit.
  erewrite bind_run.
  2:{ apply build_rulesets_run. by apply templates_at_emit. }
  cbn [app]. fold queue.
  case_decide as Hw.
  - destruct (Z.to_nat (arg_workers a)) as [|n] eqn:En; [lia|].
    erewrite bind_run by apply run_workers_some.
    unfold mret, M_ret, ret. by rewrite emit_emit.
  - replace (Z.to_nat (arg_workers a)) with 0 by lia.
    erewrite bind_run by apply run_workers_none. done.
Qed.

Lemma main_run a w body rule key rulesets w1 :
  templates_at w body rule →
  api_key w = Some key →
  get_rulesets json_loads w = (Returned rulesets, w1) →
  main json_loads a w = main_with a rulesets w1.
Proof.
  intros Htpl Hkey Hget. unfold main.
  erewrite bind_run by (eapply verify_templates_run; eauto).
  unfold ask. unfold mbind at 1, M_bind at 1, bind at 1. rewrite Hkey.
  by erewrite bind_run by apply Hget.
Qed.

(** What [main_with] does behind the early exits. *)
Lemma main_with_reconcile a rulesets w :
  (rulesets ≠ ∅ ∨ truthy (arg_add_domain a) = true) →
  arg_list a = false →
  main_with a rulesets w
  = match reconcile (from_option rs_domains [] (rulesets !! "url"))
            (arg_add_domain a) (arg_delete_domain a) with
    | NotFound d _ => (SysExit 1, emit ["* " +:+ d +:+ " not in list"] [] w)
    | Reconciled v => synchronize a rulesets v w
    end.
Proof.
  intros Hgo Hl. unfold main_with. rewrite Hl.
  replace (bool_decide (rulesets = ∅) && negb (truthy (arg_add_domain a)))
    with false.
  2:{ destruct Hgo as [Hne| ->]; [|by rewrite andb_false_r].
      by rewrite bool_decide_eq_false_2. }
  destruct (reconcile _ _ _); [|done].
  by erewrite bind_run by apply print_run.
Qed.

End MainRuns.

(** * The claims of the specification *)

(** ** Reconciler *)

(** C4.  Whatever the old list and the add and delete requests, a list the
    reconciler produces is sorted in ascending lexicographic order and has
    no duplicates (so it is strictly ascending). *)
Theorem reconcile_sorted_nodup old add_domain delete_domain v :
  reconcile old add_domain delete_domain = Reconciled v →
  Sorted String.le (new_domain_list v)
  ∧ NoDup (new_domain_list v)
  ∧ StronglySorted (strict String.le) (new_domain_list v).
Proof.
  intros H. apply reconcile_new_canonical in H as [l ->].
  auto using canonical_sorted, canonical_NoDup, canonical_strict.
Qed.

Lemma reconcile_sorted_nodup_witness :
  let v := {| domains := ["b.com"; "a.com"; "c.com"];
              new_domain_list := ["a.com"; "c.com"; "d.com"] |} in
  reconcile ["b.com"; "a.com"; "c.com"] (Some "d.com") (Some "b.com")
  = Reconciled v
  ∧ Sorted String.le (new_domain_list v)
  ∧ NoDup (new_domain_list v)
  ∧ StronglySorted (strict String.le) (new_domain_list v).
Proof.
  split; [reflexivity|].
  apply (reconcile_sorted_nodup ["b.com"; "a.com"; "c.com"]
           (Some "d.com") (Some "b.com")).
  reflexivity.
Defined.

(** C5.  Adding a domain to the result of adding it gives the same
    canonical list as adding it once. *)
Theorem reconcile_add_idempotent old d :
  ∃ v1 v2,
    reconcile old (Some d) None = Reconciled v1
    ∧ reconcile (new_domain_list v1) (Some d) None = Reconciled v2
    ∧ new_domain_list v2 = new_domain_list v1.
Proof.
  eexists _, _. rewrite !reconcile_add_only. repeat split.
  cbn [new_domain_list]. destruct (truthy (Some d)).
  - rewrite <- (canonical_idem (old ++ [d])) at 2.
    apply canonical_ext. intros x.
    rewrite elem_of_app, !elem_of_canonical, elem_of_app. tauto.
  - apply canonical_idem.
Qed.

Section ReconcilerClaims.

Variable json_loads : string → option (list string).


(** C10.  The same non-empty domain passed as add and as delete request,
    absent from the current list: the membership test sees the appended
    domain, no NotFound is signalled, the new canonical list is the
    canonical old list, and the run ends normally. *)
Theorem add_and_delete_same_domain a w body rule key rulesets w1 d :
  templates_at w body rule →
  api_key w = Some key →
  get_rulesets json_loads w = (Returned rulesets, w1) →
  arg_list a = false →
  arg_add_domain a = Some d →
  arg_delete_domain a = Some d →
  d ≠ EmptyString →
  d ∉ from_option rs_domains [] (rulesets !! "url") →
  py_in d (from_option rs_domains [] (rulesets !! "url") ++ [d]) = true
  ∧ reconcile (from_option rs_domains [] (rulesets !! "url")) (Some d) (Some d)
    = Reconciled
        {| domains := from_option rs_domains [] (rulesets !! "url");
           new_domain_list :=
             canonical (from_option rs_domains [] (rulesets !! "url")) |}
  ∧ ∃ w2, main json_loads a w = (Returned tt, w2).
Proof.
  intros Htpl Hkey Hget Hlist Hadd Hdel Hd Hnotin.
  set (old := from_option rs_domains [] (rulesets !! "url")) in *.
  assert (py_in d (old ++ [d]) = true) as Hin.
  { apply bool_decide_eq_true_2, elem_of_app. right. by left. }
  assert (reconcile old (Some d) (Some d)
          = Reconciled {| domains := old; new_domain_list := canonical old |})
    as Hrec.
  { unfold reconcile. rewrite truthy_Some, (bool_decide_eq_true_2 _ Hd).
    cbn [copy_domains append_new new_domain_list domains].
    rewrite Hin. unfold remove_new, canonicalize_new, append_new, copy_domains.
    cbn [negb new_domain_list domains].
    by rewrite py_remove_not_in. }
  do 2 (split; [done|]).
  erewrite main_run by eauto.
  rewrite main_with_reconcile; [|right; rewrite Hadd, truthy_Some;
                                  by apply bool_decide_eq_true_2|done].
  fold old. rewrite Hadd, Hdel, Hrec.
  destruct (decide (canonical old = old)) as [Heq|Hne].
  - rewrite synchronize_same by done. by eexists.
  - apply get_rulesets_world in Hget as [lines ->].
    erewrite synchronize_differ; [by eexists| |done].
    apply templates_at_emit, Htpl.
Qed.


End ReconcilerClaims.

(** ** Runs of the small installation *)

Lemma demo_templates_at it : templates_at (demo_world it) demo_body demo_rule.
Proof.
  split; [reflexivity|]. intros e He.
  repeat (apply elem_of_cons in He as [->|He]; [reflexivity|]).
  by apply elem_of_nil in He.
Qed.

Lemma demo_fetch_ab :
  get_rulesets Json.loads (demo_world [inl (demo_url_ruleset ["a.com"; "b.com"])])
  = (Returned (demo_rulesets ["a.com"; "b.com"]),
     demo_world [inl (demo_url_ruleset ["a.com"; "b.com"])]).
Proof. vm_compute. reflexivity. Qed.

Lemma demo_rulesets_nonempty doms : demo_rulesets doms ≠ ∅.
Proof. apply insert_non_empty. Qed.





(** The same domain as add and delete request, on the installation whose
    list is a.com, b.com. *)
Lemma add_and_delete_same_domain_witness :
  let w := demo_world [inl (demo_url_ruleset ["a.com"; "b.com"])] in
  let a := {| arg_list := false; arg_add_domain := Some "c.com";
              arg_delete_domain := Some "c.com"; arg_workers := 4 |} in
  let old := from_option rs_domains [] (demo_rulesets ["a.com"; "b.com"] !! "url") in
  py_in "c.com" (old ++ ["c.com"]) = true
  ∧ reconcile old (Some "c.com") (Some "c.com")
    = Reconciled {| domains := old; new_domain_list := canonical old |}
  ∧ ∃ w2, main Json.loads a w = (Returned tt, w2).
Proof.
  intros w a old.
  apply (add_and_delete_same_domain Json.loads a w demo_body demo_rule "key"
           (demo_rulesets ["a.com"; "b.com"]) w "c.com").
  - apply demo_templates_at.
  - reflexivity.
  - apply demo_fetch_ab.
  - reflexivity.
  - reflexivity.
  - reflexivity.
  - discriminate.
  - vm_compute. intros H. by repeat (apply elem_of_cons in H as [H|H]; [done|]);
      apply elem_of_nil in H.
Defined.

(** ** Template renderer *)

(** C6.  The rendered text is the body with its placeholder replaced by the
    JSON text of the list, once, then a newline, then for every domain in
    list order its rule block and a newline.  For the empty list it is the
    body rendered with the empty array, and the newline. *)
Theorem render_template_shape entity doms w body rule_block :
  templates w !! path_join (template_dir w) "_body.yara" = Some body →
  templates w !! path_join (template_dir w) (entity +:+ ".yara") = Some rule_block →
  render_template entity doms w
  = (Returned
       ((PyStr.replace "${domain_list_json}" (Json.dumps_indent1 doms) body
         +:+ Json.nl)
        +:+ join ((λ domain, render_rule_block rule_block domain +:+ Json.nl)
                    <$> doms)), w)
  ∧ length ((λ domain, render_rule_block rule_block domain +:+ Json.nl) <$> doms)
    = length doms
  ∧ (doms = [] →
     render_template entity doms w
     = (Returned (PyStr.replace "${domain_list_json}" "[]" body +:+ Json.nl), w)).
Proof.
  intros Hb Hr. split; [by apply render_template_run|].
  split; [apply length_fmap|].
  intros ->. erewrite render_template_run by eauto.
  unfold rendered. cbn [fmap list_fmap join]. by rewrite sapp_empty_r.
Qed.

Lemma render_template_shape_witness :
  render_template "domain" ["x.y-z.com"] (demo_world [])
  = (Returned
       ((PyStr.replace "${domain_list_json}" (Json.dumps_indent1 ["x.y-z.com"])
           demo_body +:+ Json.nl)
        +:+ join ((λ domain, render_rule_block (demo_rule "domain") domain
                              +:+ Json.nl) <$> ["x.y-z.com"])), demo_world [])
  ∧ length ((λ domain, render_rule_block (demo_rule "domain") domain +:+ Json.nl)
              <$> ["x.y-z.com"]) = 1
  ∧ (["x.y-z.com"] = [] →
     render_template "domain" ["x.y-z.com"] (demo_world [])
     = (Returned (PyStr.replace "${domain_list_json}" "[]" demo_body +:+ Json.nl),
        demo_world [])).
Proof.
  apply (render_template_shape "domain" ["x.y-z.com"] (demo_world [])
           demo_body (demo_rule "domain")); reflexivity.
Defined.

(** C8.  Rendering reads the template files and nothing else, and changes
    nothing: a second call behind the first returns the same text, and so
    does a call in any world that holds the same template files. *)
Theorem render_template_deterministic entity doms w w' :
  template_dir w' = template_dir w →
  templates w' = templates w →
  (render_template entity doms w).2 = w
  ∧ render_template entity doms (render_template entity doms w).2
    = render_template entity doms w
  ∧ (render_template entity doms w').1 = (render_template entity doms w).1.
Proof.
  intros Hd Ht.
  assert ((render_template entity doms w).2 = w) as Hw.
  { destruct (render_template entity doms w) as [r w1] eqn:E.
    by apply render_template_world in E. }
  split; [done|]. split; [by rewrite Hw|].
  rewrite !render_template_eval. cbn [fst]. by rewrite Hd, Ht.
Qed.

Lemma render_template_deterministic_witness :
  let w := demo_world [] in
  let w' := emit ["a line"] [PostCall "n" "file" "r"] (demo_world [inr "down"]) in
  (render_template "url" ["a.com"] w).2 = w
  ∧ render_template "url" ["a.com"] (render_template "url" ["a.com"] w).2
    = render_template "url" ["a.com"] w
  ∧ (render_template "url" ["a.com"] w').1 = (render_template "url" ["a.com"] w).1.
Proof.
  intros w w'.
  apply (render_template_deterministic "url" ["a.com"] w w'); reflexivity.
Defined.

(** *** The two placeholders of a rule block *)

Lemma replace_raw_pieces pieces domain :
  forallb plain_piece pieces = true →
  PyStr.replace_go "${domain}" domain 0 (join (piece_source <$> pieces))
  = join (after_raw domain <$> pieces).
Proof.
  induction pieces as [|p pieces IH]; [done|].
  cbn [forallb]. intros [Hp Hps]%andb_true_iff.
  cbn [fmap list_fmap join]. specialize (IH Hps).
  destruct p as [s| |]; cbn [piece_source after_raw].
  - rewrite replace_go_copy by (by apply negb_true_iff). f_equal. exact IH.
  - rewrite replace_go_match. f_equal. exact IH.
  - change ("${domain_escaped}" +:+ ?t) with (String "$" ("{domain_escaped}" +:+ t)).
    cbn [PyStr.replace_go]. unfold PyStr.startswith.
    replace (String.prefix _ _) with false by reflexivity.
    rewrite replace_go_copy by reflexivity. do 2 f_equal. exact IH.
Qed.

Lemma replace_escaped_pieces pieces domain new :
  forallb plain_piece pieces = true →
  PyStr.has_char "$" domain = false →
  PyStr.replace_go "${domain_escaped}" new 0 (join (after_raw domain <$> pieces))
  = join ((λ p, match p with
                | EscapedDomain => new
                | _ => after_raw domain p
                end) <$> pieces).
Proof.
  intros Hps Hd. induction pieces as [|p pieces IH]; [done|].
  cbn [forallb] in Hps. apply andb_true_iff in Hps as [Hp Hps].
  cbn [fmap list_fmap join]. specialize (IH Hps).
  destruct p as [s| |]; cbn [after_raw].
  - rewrite replace_go_copy by (by apply negb_true_iff). f_equal. exact IH.
  - rewrite replace_go_copy by done. f_equal. exact IH.
  - rewrite replace_go_match. f_equal. exact IH.
Qed.

Lemma is_digit_word c : is_digit c = true → is_word c = true.
Proof. unfold is_word, is_digit. by intros ->. Qed.

Lemma re_sub_nonword_length repl s :
  String.length (re_sub_nonword repl s) = String.length s.
Proof. induction s; simpl; by f_equal. Qed.

Lemma re_sub_nonword_get repl s i c :
  String.get i s = Some c →
  String.get i (re_sub_nonword repl s) = Some (if is_word c then c else repl).
Proof.
  revert i. induction s as [|c' s IH]; intros i; [done|].
  destruct i as [|i]; simpl; [|by apply IH].
  intros [= ->]. f_equal.
  destruct (is_word c) eqn:Hw; [done|].
  destruct (is_digit c) eqn:Hdg; [|done].
  apply is_digit_word in Hdg. congruence.
Qed.

(** C7, as amended.  For a domain without a dollar sign, and a rule template
    made of the two placeholders and of text without a dollar sign, every
    raw-domain placeholder is rendered as the domain itself and every
    escaped-domain placeholder as the sanitized form.  The sanitized form
    has the characters of the domain, with an underscore for each one that
    is neither alphanumeric nor the underscore.  For x.y-z.com it is
    x_y_z_com, the raw placeholder still giving x.y-z.com. *)
Theorem render_rule_block_pieces pieces domain :
  forallb plain_piece pieces = true →
  PyStr.has_char "$" domain = false →
  render_rule_block (join (piece_source <$> pieces)) domain
  = join (piece_value domain <$> pieces)
  ∧ String.length (domain_escaped domain) = String.length domain
  ∧ (∀ i c, String.get i domain = Some c →
            String.get i (domain_escaped domain)
            = Some (if is_word c then c else "_"%char))
  ∧ domain_escaped "x.y-z.com" = "x_y_z_com"
  ∧ render_rule_block "rule r_${domain_escaped} { ${domain} }" "x.y-z.com"
    = "rule r_x_y_z_com { x.y-z.com }".
Proof.
  intros Hps Hd. split; [|split; [|split; [|split]]].
  - unfold render_rule_block, PyStr.replace.
    rewrite replace_raw_pieces by done.
    rewrite (replace_escaped_pieces _ _ _ Hps Hd).
    f_equal. apply list_fmap_ext. by intros _ [] _.
  - apply re_sub_nonword_length.
  - intros i c. apply re_sub_nonword_get.
  - reflexivity.
  - reflexivity.
Qed.

Lemma render_rule_block_pieces_witness :
  let pieces := [Text "rule r_"; EscapedDomain; Text " { "; RawDomain; Text " }"] in
  render_rule_block (join (piece_source <$> pieces)) "x.y-z.com"
  = join (piece_value "x.y-z.com" <$> pieces)
  ∧ String.length (domain_escaped "x.y-z.com") = String.length "x.y-z.com"
  ∧ (∀ i c, String.get i "x.y-z.com" = Some c →
            String.get i (domain_escaped "x.y-z.com")
            = Some (if is_word c then c else "_"%char))
  ∧ domain_escaped "x.y-z.com" = "x_y_z_com"
  ∧ render_rule_block "rule r_${domain_escaped} { ${domain} }" "x.y-z.com"
    = "rule r_x_y_z_com { x.y-z.com }".
Proof.
  apply (render_rule_block_pieces
           [Text "rule r_"; EscapedDomain; Text " { "; RawDomain; Text " }"]
           "x.y-z.com"); reflexivity.
Defined.

(** C7 as stated fails: a domain that spells the escaped-domain
    placeholder is first put in the place of the raw-domain placeholder and
    then replaced itself, so the raw placeholder does not render the
    domain. *)
Lemma render_rule_block_counterexample :
  let domain := "${domain_escaped}" in
  render_rule_block (join (piece_source <$> [RawDomain])) domain
  = "__domain_escaped_"
  ∧ render_rule_block (join (piece_source <$> [RawDomain])) domain
    ≠ join (piece_value domain <$> [RawDomain]).
Proof. split; [reflexivity|discriminate]. Qed.

(** ** Scenario 1 *)

Lemma contains_app_r sub s t : PyStr.contains sub s → PyStr.contains sub (s +:+ t).
Proof.
  intros (pre & post & ->). exists pre, (post +:+ t).
  by rewrite !sapp_assoc.
Qed.

(** If the body template holds the placeholder, the rendered text holds the
    JSON text of the list, in the part that comes from the body. *)
Lemma rendered_contains_json body rule_block doms :
  PyStr.contains "${domain_list_json}" body →
  ∃ header blocks,
    rendered body rule_block doms = header +:+ blocks
    ∧ header = PyStr.replace "${domain_list_json}" (Json.dumps_indent1 doms) body
               +:+ Json.nl
    ∧ PyStr.contains (Json.dumps_indent1 doms) header.
Proof.
  intros Hph. eexists _, _. split; [reflexivity|]. split; [reflexivity|].
  by apply contains_app_r, replace_contains.
Qed.

(** C3.  Old list b.com, add a.com: the new canonical list is a.com, b.com;
    [build_rulesets] puts four tasks on the queue, one per kind in the order
    file, url, domain, ip_address; and, the body template holding the
    placeholder, the rule text of each task carries the JSON array of a.com
    and b.com in its header, the part rendered from the body. *)
Theorem scenario_add_domain w body rule rulesets :
  templates_at w body rule →
  PyStr.contains "${domain_list_json}" body →
  reconcile ["b.com"] (Some "a.com") None
  = Reconciled {| domains := ["b.com"]; new_domain_list := ["a.com"; "b.com"] |}
  ∧ ∃ queue,
      build_rulesets [] rulesets ["a.com"; "b.com"] w = (Returned queue, w)
      ∧ length queue = 4
      ∧ task_entity <$> queue = ["file"; "url"; "domain"; "ip_address"]
      ∧ ∀ t, t ∈ queue →
          ∃ header blocks,
            task_rules t = header +:+ blocks
            ∧ header = PyStr.replace "${domain_list_json}"
                         (Json.dumps_indent1 ["a.com"; "b.com"]) body +:+ Json.nl
            ∧ PyStr.contains (Json.dumps_indent1 ["a.com"; "b.com"]) header
            ∧ Json.loads (Json.dumps_indent1 ["a.com"; "b.com"])
              = Some ["a.com"; "b.com"].
Proof.
  intros Htpl Hph. split; [reflexivity|].
  eexists. split; [by eapply build_rulesets_run|].
  split; [reflexivity|]. split; [reflexivity|].
  intros t Ht. cbn [app] in Ht. apply list_elem_of_fmap in Ht as (e & -> & _).
  destruct (rendered_contains_json body (rule e) ["a.com"; "b.com"] Hph)
    as (header & blocks & H1 & H2 & H3).
  exists header, blocks. by repeat split.
Qed.

Lemma scenario_add_domain_witness :
  let w := demo_world [inl (demo_url_ruleset ["b.com"])] in
  reconcile ["b.com"] (Some "a.com") None
  = Reconciled {| domains := ["b.com"]; new_domain_list := ["a.com"; "b.com"] |}
  ∧ ∃ queue,
      build_rulesets [] (demo_rulesets ["b.com"]) ["a.com"; "b.com"] w
      = (Returned queue, w)
      ∧ length queue = 4
      ∧ task_entity <$> queue = ["file"; "url"; "domain"; "ip_address"]
      ∧ ∀ t, t ∈ queue →
          ∃ header blocks,
            task_rules t = header +:+ blocks
            ∧ header = PyStr.replace "${domain_list_json}"
                         (Json.dumps_indent1 ["a.com"; "b.com"]) demo_body
                       +:+ Json.nl
            ∧ PyStr.contains (Json.dumps_indent1 ["a.com"; "b.com"]) header
            ∧ Json.loads (Json.dumps_indent1 ["a.com"; "b.com"])
              = Some ["a.com"; "b.com"].
Proof.
  intros w.
  apply (scenario_add_domain w demo_body demo_rule (demo_rulesets ["b.com"])).
  - apply demo_templates_at.
  - apply contains_occurs. vm_compute. reflexivity.
Defined.

(** ** Ruleset fetcher *)

Section FetcherClaims.

Variable json_loads : string → option (list string).

(** C9.  The iterator hands out the objects [objs] and then fails with an
    [APIError]: the fetcher prints the error and returns the mapping that
    the objects alone give, empty if there were none; no exception leaves
    it, and [main] goes on with that mapping. *)
Theorem fetch_survives_api_error objs e rest m w a body rule key :
  listing w = (inl <$> objs) ++ inr e :: rest →
  length objs < 10 →
  get_rulesets_loop json_loads 10 (inl <$> objs) ∅ w = (Returned m, w) →
  templates_at w body rule →
  api_key w = Some key →
  get_rulesets json_loads w
  = (Returned m,
     emit ["Error retrieving " +:+ RULESET_PREFIX +:+ "* rulesets: " +:+ e] [] w)
  ∧ (objs = [] → m = ∅)
  ∧ main json_loads a w
    = main_with a m
        (emit ["Error retrieving " +:+ RULESET_PREFIX +:+ "* rulesets: " +:+ e] [] w).
Proof.
  intros Hit Hlen Hobjs Htpl Hkey.
  assert (get_rulesets json_loads w
          = (Returned m,
             emit ["Error retrieving " +:+ RULESET_PREFIX +:+ "* rulesets: " +:+ e]
               [] w)) as Hget.
  { unfold get_rulesets, ask, mbind, M_bind, bind. rewrite Hit.
    by apply get_rulesets_loop_error. }
  split; [done|]. split.
  - intros ->. cbn in Hobjs. by injection Hobjs as <-.
  - by eapply main_run.
Qed.

End FetcherClaims.

Lemma fetch_survives_api_error_witness :
  let w := demo_world [inl (demo_url_ruleset ["a.com"; "b.com"]); inr "quota"] in
  let a := {| arg_list := true; arg_add_domain := None;
              arg_delete_domain := None; arg_workers := 4 |} in
  let m := demo_rulesets ["a.com"; "b.com"] in
  get_rulesets Json.loads w
  = (Returned m,
     emit ["Error retrieving " +:+ RULESET_PREFIX +:+ "* rulesets: " +:+ "quota"] [] w)
  ∧ ([demo_url_ruleset ["a.com"; "b.com"]] = [] → m = ∅)
  ∧ main Json.loads a w
    = main_with a m
        (emit ["Error retrieving " +:+ RULESET_PREFIX +:+ "* rulesets: " +:+ "quota"]
           [] w).
Proof.
  intros w a m.
  apply (fetch_survives_api_error Json.loads
           [demo_url_ruleset ["a.com"; "b.com"]] "quota" [] m w a
           demo_body demo_rule "key").
  - reflexivity.
  - simpl. lia.
  - vm_compute. reflexivity.
  - apply demo_templates_at.
  - reflexivity.
Defined.

(** * Further properties of the script *)

(** ** The early exits of [main] *)

Section EarlyExits.

Variable json_loads : string → option (list string).

Lemma verify_template_missing name w :
  templates w !! path_join (template_dir w) (name +:+ ".yara") = None →
  verify_template name w
  = (SysExit 1,
     emit ["ERROR: file " +:+ path_join (template_dir w) (name +:+ ".yara")
           +:+ " not found."] [] w).
Proof.
  intros H. unfold verify_template, template_path, path_exists, ask.
  unfold mbind at 1, M_bind at 1, bind at 1.
  unfold mbind at 1, M_bind at 1, bind at 1.
  rewrite bool_decide_eq_false_2 by (rewrite H; by intros [? [=]]).
  cbn [negb]. by erewrite bind_run by apply print_run.
Qed.

Lemma verify_until_missing pre name post w :
  (∀ n, n ∈ pre →
        is_Some (templates w !! path_join (template_dir w) (n +:+ ".yara"))) →
  templates w !! path_join (template_dir w) (name +:+ ".yara") = None →
  for_each (pre ++ name :: post) verify_template w
  = (SysExit 1,
     emit ["ERROR: file " +:+ path_join (template_dir w) (name +:+ ".yara")
           +:+ " not found."] [] w).
Proof.
  intros Hpre Hname. induction pre as [|n pre IH]; cbn [app for_each].
  - by erewrite bind_exit_run by (by apply verify_template_missing).
  - erewrite bind_run by (apply verify_template_run, Hpre; by left).
    apply IH. intros ??. apply Hpre. by right.
Qed.

(** X1.  A template file is missing: [main] reports the first missing file
    and exits with status 1; it has not looked at the API key, fetched
    anything or issued a write. *)
Theorem main_missing_template a w pre name post :
  RULESET_ENTITY ++ ["_body"] = pre ++ name :: post →
  (∀ n, n ∈ pre →
        is_Some (templates w !! path_join (template_dir w) (n +:+ ".yara"))) →
  templates w !! path_join (template_dir w) (name +:+ ".yara") = None →
  main json_loads a w
  = (SysExit 1,
     emit ["ERROR: file " +:+ path_join (template_dir w) (name +:+ ".yara")
           +:+ " not found."] [] w).
Proof.
  intros Hsplit Hpre Hname. unfold main. rewrite Hsplit.
  by erewrite bind_exit_run by (by apply verify_until_missing).
Qed.

(** X2.  The templates are there and the API key is not set: [main] asks
    for the key and returns normally, without fetching and without a
    write. *)
Theorem main_missing_api_key a w body rule :
  templates_at w body rule →
  api_key w = None →
  main json_loads a w
  = (Returned tt,
     emit ["Please set VT_API_KEY environment variable"] [] w).
Proof.
  intros Htpl Hkey. unfold main.
  erewrite bind_run by (eapply verify_templates_run; eauto).
  unfold ask. unfold mbind at 1, M_bind at 1, bind at 1. rewrite Hkey.
  apply print_run.
Qed.

(** X3.  Nothing was fetched and no domain is to be added: [main] prints
    the hint and exits with status 1, whatever the list and delete flags
    say, and issues no write. *)
Theorem main_empty_without_add a w body rule key w1 :
  templates_at w body rule →
  api_key w = Some key →
  get_rulesets json_loads w = (Returned ∅, w1) →
  truthy (arg_add_domain a) = false →
  main json_loads a w = (SysExit 1, emit [EMPTY_LIST_MSG] [] w1)
  ∧ calls w1 = calls w.
Proof.
  intros Htpl Hkey Hget Hadd. split.
  - erewrite main_run by eauto. unfold main_with.
    rewrite bool_decide_eq_true_2 by done. rewrite Hadd. cbn [negb andb].
    by erewrite bind_run by apply print_run.
  - apply get_rulesets_world in Hget as [lines ->].
    cbn [emit calls]. by rewrite app_nil_r.
Qed.

(** X4.  With the list flag, [main] prints the domains of the url ruleset,
    or the hint if there are none, and exits with status 0; the add and
    delete requests are not looked at and no write is issued. *)
Theorem main_list_mode a w body rule key rulesets w1 :
  templates_at w body rule →
  api_key w = Some key →
  get_rulesets json_loads w = (Returned rulesets, w1) →
  (rulesets ≠ ∅ ∨ truthy (arg_add_domain a) = true) →
  arg_list a = true →
  main json_loads a w
  = (SysExit 0,
     emit (match from_option rs_domains [] (rulesets !! "url") with
           | [] => [EMPTY_LIST_MSG]
           | doms => "Currently monitored domains:" :: (String.append "- " <$> doms)
           end) [] w1)
  ∧ calls w1 = calls w.
Proof.
  intros Htpl Hkey Hget Hgo Hlist. split.
  - erewrite main_run by eauto. unfold main_with. rewrite Hlist.
    replace (bool_decide (rulesets = ∅) && negb (truthy (arg_add_domain a)))
      with false.
    2:{ destruct Hgo as [Hne| ->]; [|by rewrite andb_false_r].
        by rewrite bool_decide_eq_false_2. }
    destruct (from_option rs_domains [] (rulesets !! "url")) as [|d doms] eqn:E.
    + rewrite bool_decide_eq_true_2 by done.
      by erewrite bind_run by apply print_run.
    + rewrite bool_decide_eq_false_2 by done.
      erewrite bind_run by apply print_run.
      erewrite bind_run by apply (for_each_print (String.append "- ")).
      unfold sys_exit. by rewrite emit_emit.
  - apply get_rulesets_world in Hget as [lines ->].
    cbn [emit calls]. by rewrite app_nil_r.
Qed.

End EarlyExits.

Lemma templates_at_env w w' body rule :
  template_dir w' = template_dir w → templates w' = templates w →
  templates_at w body rule → templates_at w' body rule.
Proof. unfold templates_at. by intros -> ->. Qed.

Lemma main_missing_template_witness :
  let w := with_templates (delete "nw/domain.yara" demo_templates) (demo_world []) in
  let a := {| arg_list := false; arg_add_domain := Some "a.com";
              arg_delete_domain := None; arg_workers := 4 |} in
  main Json.loads a w
  = (SysExit 1, emit ["ERROR: file nw/domain.yara not found."] [] w).
Proof.
  intros w a.
  apply (main_missing_template Json.loads a w ["file"; "url"] "domain"
           ["ip_address"; "_body"]).
  - reflexivity.
  - intros n Hn.
    repeat (apply elem_of_cons in Hn as [->|Hn]; [vm_compute; eauto|]).
    by apply elem_of_nil in Hn.
  - vm_compute. reflexivity.
Defined.

Lemma main_missing_api_key_witness :
  let w := with_api_key None (demo_world []) in
  let a := {| arg_list := false; arg_add_domain := Some "a.com";
              arg_delete_domain := None; arg_workers := 4 |} in
  main Json.loads a w
  = (Returned tt, emit ["Please set VT_API_KEY environment variable"] [] w).
Proof.
  intros w a.
  apply (main_missing_api_key Json.loads a w demo_body demo_rule).
  - apply (templates_at_env (demo_world [])); [reflexivity..|].
    apply demo_templates_at.
  - reflexivity.
Defined.

Lemma main_empty_without_add_witness :
  let w := demo_world [] in
  let a := {| arg_list := true; arg_add_domain := None;
              arg_delete_domain := Some "a.com"; arg_workers := 4 |} in
  main Json.loads a w = (SysExit 1, emit [EMPTY_LIST_MSG] [] w)
  ∧ calls w = calls w.
Proof.
  intros w a.
  apply (main_empty_without_add Json.loads a w demo_body demo_rule "key" w).
  - apply demo_templates_at.
  - reflexivity.
  - reflexivity.
  - reflexivity.
Defined.

Lemma main_list_mode_witness :
  let w := demo_world [inl (demo_url_ruleset ["a.com"; "b.com"])] in
  let a := {| arg_list := true; arg_add_domain := Some "z.com";
              arg_delete_domain := Some "a.com"; arg_workers := 4 |} in
  main Json.loads a w
  = (SysExit 0,
     emit (match from_option rs_domains []
                   (demo_rulesets ["a.com"; "b.com"] !! "url") with
           | [] => [EMPTY_LIST_MSG]
           | doms => "Currently monitored domains:" :: (String.append "- " <$> doms)
           end) [] w)
  ∧ calls w = calls w.
Proof.
  intros w a.
  apply (main_list_mode Json.loads a w demo_body demo_rule "key"
           (demo_rulesets ["a.com"; "b.com"]) w).
  - apply demo_templates_at.
  - reflexivity.
  - apply demo_fetch_ab.
  - left. apply demo_rulesets_nonempty.
  - reflexivity.
Defined.

(** ** What the reconciler keeps and drops *)

Section ReconcilerMembers.

Set Warnings "-clear-no-such-hyp".

Implicit Types (l old : list string) (x y d : string).

Lemma elem_of_py_remove_ne x y l : y ≠ x → y ∈ py_remove x l ↔ y ∈ l.
Proof.
  intros Hne. induction l as [|z l IH]; cbn [py_remove]; [done|].
  case_decide as Hz.
  - subst z. rewrite elem_of_cons. naive_solver.
  - rewrite !elem_of_cons, IH. done.
Qed.

Lemma py_remove_absent x l : x ∉ l → py_remove x l = l.
Proof.
  induction l as [|z l IH]; cbn [py_remove]; [done|].
  intros [Hne Hl]%not_elem_of_cons. rewrite decide_False by done.
  by rewrite IH.
Qed.

Lemma py_remove_app_l x l1 l2 :
  x ∈ l1 → py_remove x (l1 ++ l2) = py_remove x l1 ++ l2.
Proof.
  induction l1 as [|z l1 IH]; cbn [py_remove app]; [by intros ?%elem_of_nil|].
  intros Hin. case_decide; [done|].
  apply elem_of_cons in Hin as [->|Hin]; [done|]. by rewrite IH.
Qed.

Lemma py_remove_NoDup x l : NoDup l → x ∉ py_remove x l.
Proof.
  induction 1 as [|z l Hz Hl IH]; cbn [py_remove]; [apply not_elem_of_nil|].
  case_decide as Hx; [by subst z|].
  rewrite not_elem_of_cons. done.
Qed.

(** Removing one copy of a string that occurs twice leaves the set of
    strings as it is. *)
Lemma py_remove_duplicate x y l :
  x ∈ l → y ∈ py_remove x (l ++ [x]) ↔ y ∈ l ++ [x].
Proof.
  intros Hin. destruct (decide (y = x)) as [->|Hne].
  - rewrite py_remove_app_l by done. rewrite !elem_of_app.
    split; [|intros _]; right; by left.
  - by apply elem_of_py_remove_ne.
Qed.

(** X5.  The strings of the new list, for an old list without duplicates
    and a delete request that does not name the domain being added: those
    of the old list and the added domain, without the deleted one. *)
Theorem reconcile_members old add_domain delete_domain v x :
  reconcile old add_domain delete_domain = Reconciled v →
  NoDup old →
  (truthy delete_domain = true → delete_domain ≠ add_domain) →
  x ∈ new_domain_list v
  ↔ (x ∈ old ∨ (add_domain = Some x ∧ x ≠ EmptyString))
    ∧ ¬ (delete_domain = Some x ∧ x ≠ EmptyString).
Proof.
  intros Hrec Hnd Hdiff.
  set (new1 := match add_domain with
               | Some (String c a) => old ++ [String c a]
               | _ => old
               end).
  assert (∀ y, y ∈ new1 ↔ y ∈ old ∨ (add_domain = Some y ∧ y ≠ EmptyString))
    as Hnew1.
  { intros y. unfold new1. destruct add_domain as [[|c a]|].
    - naive_solver.
    - rewrite elem_of_app, list_elem_of_singleton. naive_solver.
    - naive_solver. }
  assert (reconcile old add_domain delete_domain
          = match delete_domain with
            | Some (String c d) =>
                if py_in (String c d) new1
                then Reconciled {| domains := old;
                                   new_domain_list :=
                                     canonical (py_remove (String c d) new1) |}
                else NotFound (String c d)
                       {| domains := old; new_domain_list := new1 |}
            | _ => Reconciled {| domains := old; new_domain_list := canonical new1 |}
            end) as Heq.
  { unfold reconcile, new1.
    destruct add_domain as [[|c a]|], delete_domain as [[|c' d]|];
      cbn [truthy]; try done;
      unfold py_in, append_new, copy_domains; cbn [new_domain_list domains];
      by case_bool_decide. }
  rewrite Heq in Hrec. clear Heq.
  destruct delete_domain as [[|c d]|].
  - injection Hrec as <-. cbn [new_domain_list].
    rewrite elem_of_canonical, Hnew1. naive_solver.
  - destruct (py_in (String c d) new1) eqn:Hin; [|done].
    injection Hrec as <-. cbn [new_domain_list]. rewrite elem_of_canonical.
    apply bool_decide_eq_true_1 in Hin.
    assert (add_domain ≠ Some (String c d)) as Hadd
      by (intros E; by apply Hdiff).
    assert (String c d ∈ old) as Hold
      by (apply Hnew1 in Hin as [?|[? _]]; done).
    destruct (decide (x = String c d)) as [->|Hne].
    + split; [|naive_solver]. intros Hx. exfalso. revert Hx.
      unfold new1. destruct add_domain as [[|c' a]|];
        try by apply py_remove_NoDup.
      rewrite py_remove_app_l by done. rewrite elem_of_app.
      intros [Hx|Hx]; [by eapply py_remove_NoDup|].
      apply list_elem_of_singleton in Hx. congruence.
    + rewrite elem_of_py_remove_ne by done. rewrite Hnew1. naive_solver.
  - injection Hrec as <-. cbn [new_domain_list].
    rewrite elem_of_canonical, Hnew1. naive_solver.
Qed.

(** X6.  The same domain as add and as delete request, present in the
    current list: the appended copy keeps the domain in the list when the
    first copy is removed, so the new list is the canonical old list. *)
Theorem add_and_delete_present old d :
  d ∈ old → d ≠ EmptyString →
  reconcile old (Some d) (Some d)
  = Reconciled {| domains := old; new_domain_list := canonical old |}.
Proof.
  intros Hin Hd. unfold reconcile. rewrite truthy_Some.
  rewrite (bool_decide_eq_true_2 _ Hd).
  unfold py_in, append_new, copy_domains, remove_new, canonicalize_new.
  cbn [new_domain_list domains].
  rewrite bool_decide_eq_true_2 by (apply elem_of_app; right; by left).
  cbn [negb]. do 2 f_equal. apply canonical_ext. intros y.
  rewrite py_remove_duplicate by done.
  rewrite elem_of_app, list_elem_of_singleton. naive_solver.
Qed.

(** X7.  Adding a domain that a canonical list already holds gives the
    list back, and the run prints "Nothing to do" without building a task
    or issuing a write. *)
Theorem add_present_nothing_to_do old d a rulesets w :
  Sorted String.le old → NoDup old → d ∈ old →
  reconcile old (Some d) None
  = Reconciled {| domains := old; new_domain_list := old |}
  ∧ synchronize a rulesets {| domains := old; new_domain_list := old |} w
    = (Returned tt, emit ["Nothing to do"] [] w).
Proof.
  intros Hs Hn Hin. split; [|by apply synchronize_same].
  rewrite reconcile_add_only. do 2 f_equal.
  rewrite <- (canonical_fixed old Hs Hn) at 3.
  apply canonical_ext. intros y. destruct (truthy (Some d)); [|done].
  rewrite elem_of_app, list_elem_of_singleton. naive_solver.
Qed.

End ReconcilerMembers.

Lemma reconcile_members_witness :
  "b.com" ∈ ["a.com"; "c.com"]
  ↔ ("b.com" ∈ ["a.com"; "b.com"] ∨ (Some "c.com" = Some "b.com" ∧ "b.com" ≠ EmptyString))
    ∧ ¬ (Some "b.com" = Some "b.com" ∧ "b.com" ≠ EmptyString).
Proof.
  apply (reconcile_members ["a.com"; "b.com"] (Some "c.com") (Some "b.com")
           {| domains := ["a.com"; "b.com"];
              new_domain_list := ["a.com"; "c.com"] |} "b.com").
  - reflexivity.
  - apply (bool_decide_unpack _). vm_compute. exact I.
  - discriminate.
Defined.

Lemma add_and_delete_present_witness :
  reconcile ["a.com"; "b.com"] (Some "a.com") (Some "a.com")
  = Reconciled {| domains := ["a.com"; "b.com"];
                  new_domain_list := canonical ["a.com"; "b.com"] |}.
Proof.
  apply (add_and_delete_present ["a.com"; "b.com"] "a.com").
  - apply (bool_decide_unpack _). vm_compute. exact I.
  - discriminate.
Defined.

Lemma add_present_nothing_to_do_witness :
  let old := ["a.com"; "b.com"] in
  let a := {| arg_list := false; arg_add_domain := Some "b.com";
              arg_delete_domain := None; arg_workers := 4 |} in
  reconcile old (Some "b.com") None
  = Reconciled {| domains := old; new_domain_list := old |}
  ∧ synchronize a (demo_rulesets old) {| domains := old; new_domain_list := old |}
      (demo_world [])
    = (Returned tt, emit ["Nothing to do"] [] (demo_world [])).
Proof.
  intros old a.
  apply (add_present_nothing_to_do old "b.com" a (demo_rulesets old) (demo_world [])).
  - apply (bool_decide_unpack _). vm_compute. exact I.
  - apply (bool_decide_unpack _). vm_compute. exact I.
  - apply (bool_decide_unpack _). vm_compute. exact I.
Defined.

(** ** The sanitized identifier *)

Lemma re_sub_nonword_word repl s i c :
  is_word repl = true →
  String.get i (re_sub_nonword repl s) = Some c → is_word c = true.
Proof.
  intros Hrepl. revert i. induction s as [|c' s IH]; intros i; [done|].
  destruct i as [|i]; cbn [re_sub_nonword String.get]; [|apply IH].
  intros [= <-]. destruct (is_word c') eqn:Hw; [done|].
  destruct (is_digit c') eqn:Hd; [|done].
  apply is_digit_word in Hd. congruence.
Qed.

Lemma re_sub_nonword_fixed repl s :
  (∀ i c, String.get i s = Some c → is_word c = true) →
  re_sub_nonword repl s = s.
Proof.
  induction s as [|c s IH]; intros Hs; [done|].
  cbn [re_sub_nonword]. rewrite (Hs 0 c eq_refl). cbn [orb negb].
  f_equal. apply IH. intros i. apply (Hs (S i)).
Qed.

(** X8.  Every character of the sanitized form of a domain is alphanumeric
    or the underscore, a domain made of such characters is its own sanitized
    form, and sanitizing twice is sanitizing once. *)
Theorem domain_escaped_identifier domain :
  (∀ i c, String.get i (domain_escaped domain) = Some c → is_word c = true)
  ∧ ((∀ i c, String.get i domain = Some c → is_word c = true) →
     domain_escaped domain = domain)
  ∧ domain_escaped (domain_escaped domain) = domain_escaped domain.
Proof.
  assert (∀ i c, String.get i (domain_escaped domain) = Some c
                 → is_word c = true) as Hword.
  { intros i c. by apply re_sub_nonword_word. }
  split; [done|]. split.
  - apply re_sub_nonword_fixed.
  - by apply re_sub_nonword_fixed.
Qed.

Lemma domain_escaped_identifier_witness :
  (∀ i c, String.get i (domain_escaped "x_1") = Some c → is_word c = true)
  ∧ ((∀ i c, String.get i "x_1" = Some c → is_word c = true) →
     domain_escaped "x_1" = "x_1")
  ∧ domain_escaped (domain_escaped "x_1") = domain_escaped "x_1".
Proof. apply (domain_escaped_identifier "x_1"). Defined.

(** ** Uploading *)

(** X9.  A worker never stops early and never fails: whatever the service
    answers, [upload_rulesets] empties the queue and returns; it issues
    exactly one write per task, in queue order, and prints exactly one
    report per task, an error report where the service answered with an
    error. *)
Theorem upload_rulesets_total queue w :
  ∃ w',
    upload_rulesets queue w = (Returned [], w')
    ∧ calls w' = calls w ++ (call_of <$> queue)
    ∧ stdout w' = stdout w ++ (report_of w <$> queue)
    ∧ length (calls w') = length (calls w) + length queue
    ∧ templates w' = templates w.
Proof.
  eexists. split; [apply upload_rulesets_run|].
  cbn [emit calls stdout templates].
  split; [done|]. split; [done|]. split; [|done].
  by rewrite length_app, length_fmap.
Qed.

(** X10.  Building the tasks and uploading them: for each kind in the order
    file, url, domain, ip_address, a ruleset that was fetched with a
    non-empty id is updated by a PATCH on its id, and any other kind is
    created by a POST under the name auto_network_watch_<kind>; the text is
    the one rendered for that kind. *)
Theorem build_and_upload rulesets doms w body rule :
  templates_at w body rule →
  ∃ queue w',
    build_rulesets [] rulesets doms w = (Returned queue, w)
    ∧ upload_rulesets queue w = (Returned [], w')
    ∧ calls w'
      = calls w
        ++ ((λ e, match rs_id <$> rulesets !! e with
                  | Some (String c i) =>
                      PatchCall ("/intelligence/hunting_rulesets/" +:+ String c i)
                        (rendered body (rule e) doms)
                  | _ => PostCall (RULESET_PREFIX +:+ e) e
                           (rendered body (rule e) doms)
                  end) <$> RULESET_ENTITY).
Proof.
  intros Htpl. eexists _, _.
  split; [by eapply build_rulesets_run|].
  split; [apply upload_rulesets_run|].
  reflexivity.
Qed.

Lemma build_and_upload_witness :
  let w := demo_world [] in
  let rulesets := demo_rulesets ["b.com"] in
  ∃ queue w',
    build_rulesets [] rulesets ["a.com"] w = (Returned queue, w)
    ∧ upload_rulesets queue w = (Returned [], w')
    ∧ calls w'
      = calls w
        ++ ((λ e, match rs_id <$> rulesets !! e with
                  | Some (String c i) =>
                      PatchCall ("/intelligence/hunting_rulesets/" +:+ String c i)
                        (rendered demo_body (demo_rule e) ["a.com"])
                  | _ => PostCall (RULESET_PREFIX +:+ e) e
                           (rendered demo_body (demo_rule e) ["a.com"])
                  end) <$> RULESET_ENTITY).
Proof.
  intros w rulesets.
  apply (build_and_upload rulesets ["a.com"] w demo_body demo_rule).
  apply demo_templates_at.
Defined.

(** ** Splitting *)

Section Splitting.

Implicit Types (s t u sep cur : string) (left : option nat).

Lemma rev_app_sapp a b t : String.rev_app a b +:+ t = String.rev_app a (b +:+ t).
Proof. revert b. induction a as [|c a IH]; intros b; [done|]. apply IH. Qed.

Lemma rev_app_app_l u v cur :
  String.rev_app (u +:+ v) cur = String.rev_app v (String.rev_app u cur).
Proof. revert cur. induction u as [|c u IH]; intros cur; [done|]. apply IH. Qed.

Lemma rev_rev_app s : String.rev (String.rev_app s EmptyString) = s.
Proof. apply (rev_rev s). Qed.

Lemma has_char_app x s t :
  PyStr.has_char x (s +:+ t) = PyStr.has_char x s || PyStr.has_char x t.
Proof.
  induction s as [|c s IH]; [done|]. cbn [String.append PyStr.has_char].
  by rewrite IH, orb_assoc.
Qed.

Lemma occurs_cons sep c s :
  PyStr.occurs sep (String c s) = false →
  PyStr.startswith sep (String c s) = false ∧ PyStr.occurs sep s = false.
Proof. cbn [PyStr.occurs]. by intros ?%orb_false_iff. Qed.

Lemma occurs_nonempty sep s : PyStr.occurs sep s = false → sep ≠ EmptyString.
Proof. intros H ->. by destruct s. Qed.

(** An occurrence that starts in [u] and is not inside [u] runs over the
    character behind it. *)
Lemma prefix_app_guard sep u g t :
  String.prefix sep (u +:+ String g t) = true →
  String.prefix sep u = true ∨ PyStr.has_char g sep = true.
Proof.
  revert u. induction sep as [|x sep IH]; intros u.
  { left. by destruct u. }
  destruct u as [|c u]; cbn [String.append String.prefix PyStr.has_char].
  - destruct (Ascii.ascii_dec x g) as [->|]; [|done].
    intros _. right. by rewrite Ascii.eqb_refl.
  - destruct (Ascii.ascii_dec x c) as [->|]; [|done].
    intros [H|H]%IH; [by left|right]. by rewrite H, orb_true_r.
Qed.

Lemma split_go_skip sep left u cur t :
  PyStr.split_go sep left (String.length u) cur (u +:+ t)
  = PyStr.split_go sep left 0 cur t.
Proof.
  induction u as [|c u IH]; cbn [String.append String.length PyStr.split_go];
    [|done].
  by destruct t.
Qed.

Lemma split_go_match c sep left cur t :
  left ≠ Some 0 →
  PyStr.split_go (String c sep) left 0 cur (String c sep +:+ t)
  = String.rev cur :: PyStr.split_go (String c sep) (pred <$> left) 0 EmptyString t.
Proof.
  intros Hleft. change (String c sep +:+ t) with (String c (sep +:+ t)).
  cbn [PyStr.split_go]. unfold PyStr.startswith.
  change (String c (sep +:+ t)) with (String c sep +:+ t).
  rewrite prefix_app.
  cbn [PyStr.len String.length]. rewrite Nat.sub_1_r. cbn [Nat.pred].
  rewrite split_go_skip. by destruct left as [[|n]|].
Qed.

Lemma split_go_step sep left cur c s :
  left ≠ Some 0 →
  PyStr.startswith sep (String c s) = false →
  PyStr.split_go sep left 0 cur (String c s)
  = PyStr.split_go sep left 0 (String c cur) s.
Proof.
  intros Hleft Hno. cbn [PyStr.split_go]. rewrite Hno.
  by destruct left as [[|n]|].
Qed.

(** A text without the separator comes back in one piece. *)
Lemma split_go_none sep left cur s :
  PyStr.occurs sep s = false →
  PyStr.split_go sep left 0 cur s = [String.rev cur +:+ s].
Proof.
  revert cur. induction s as [|c s IH]; intros cur Hocc.
  - cbn [PyStr.split_go]. by rewrite sapp_empty_r.
  - apply occurs_cons in Hocc as [Hst Hocc].
    destruct (decide (left = Some 0)) as [->|Hleft]; [done|].
    rewrite split_go_step, IH by done.
    unfold String.rev. cbn [String.rev_app]. by rewrite !rev_app_sapp.
Qed.

Lemma passes_nil sep : passes sep EmptyString.
Proof. by intros left cur t _. Qed.

(** A stretch without the first character of the separator. *)
Lemma passes_copy c sep u v :
  PyStr.has_char c u = false →
  passes (String c sep) v → passes (String c sep) (u +:+ v).
Proof.
  intros Hu Hv left cur t Hleft. rewrite sapp_assoc, rev_app_app_l.
  rewrite <- Hv by done. clear Hv. revert cur.
  induction u as [|x u IH]; intros cur; [done|].
  cbn [PyStr.has_char] in Hu. apply orb_false_iff in Hu as [Hx Hu].
  cbn [String.append String.rev_app]. rewrite split_go_step, IH; [done..|].
  unfold PyStr.startswith. cbn [String.prefix].
  apply Ascii.eqb_neq in Hx. by destruct (Ascii.ascii_dec c x).
Qed.

(** A stretch without the separator, closed by a character that the
    separator does not contain. *)
Lemma passes_guard sep s g v :
  PyStr.occurs sep s = false →
  PyStr.has_char g sep = false →
  passes sep v → passes sep (s +:+ String g v).
Proof.
  intros Hs Hg Hv left cur t Hleft. rewrite sapp_assoc, rev_app_app_l.
  cbn [String.append String.rev_app]. rewrite <- Hv by done. clear Hv.
  assert (∀ u, PyStr.startswith sep (u +:+ String g (v +:+ t)) = true →
               PyStr.startswith sep u = true) as Hstart.
  { intros u [H|H]%prefix_app_guard; [done|congruence]. }
  revert cur. induction s as [|x s IH]; intros cur.
  - cbn [String.append String.rev_app]. apply split_go_step; [done|].
    destruct (PyStr.startswith sep (String g (v +:+ t))) eqn:E; [|done].
    apply (Hstart EmptyString) in E. by destruct sep.
  - apply occurs_cons in Hs as [Hx Hs].
    cbn [String.append String.rev_app]. rewrite split_go_step, IH; [done..|].
    destruct (PyStr.startswith sep (String x (s +:+ String g (v +:+ t))))
      eqn:E; [|done].
    apply (Hstart (String x s)) in E. congruence.
Qed.

(** The first piece, when the text goes over [u] and then meets the
    separator. *)
Lemma split_go_first c sep left u t :
  left ≠ Some 0 →
  passes (String c sep) u →
  PyStr.split_go (String c sep) left 0 EmptyString (u +:+ String c sep +:+ t)
  = u :: PyStr.split_go (String c sep) (pred <$> left) 0 EmptyString t.
Proof.
  intros Hleft Hu. rewrite Hu, split_go_match by done.
  by rewrite rev_rev_app.
Qed.

Lemma all_space_has_char x s :
  Json.is_space x = false → all_space s = true → PyStr.has_char x s = false.
Proof.
  intros Hx. induction s as [|c s IH]; [done|].
  cbn [all_space PyStr.has_char]. intros [Hc Hs]%andb_true_iff.
  rewrite IH by done. rewrite orb_false_r. apply Ascii.eqb_neq. congruence.
Qed.

End Splitting.

(** ** The header of a ruleset *)

Section Header.

Implicit Types (s t u sep : string) (doms : list string).

(** The first piece of a split is where the text begins. *)
Lemma split_go_head sep left cur s h :
  PyStr.split_go sep left 0 cur s !! 0 = Some h →
  ∃ t, String.rev cur +:+ s = h +:+ t.
Proof.
  revert cur. induction s as [|c s IH]; intros cur.
  - cbn. intros [= <-]. by exists EmptyString.
  - cbn [PyStr.split_go].
    destruct (decide (left = Some 0)) as [->|Hleft].
    { intros [= <-]. exists EmptyString. by rewrite sapp_empty_r. }
    destruct (PyStr.startswith sep (String c s)) eqn:E.
    + replace (match left with Some 0 => _ | _ => _ end)
        with (String.rev cur ::
                PyStr.split_go sep (pred <$> left) (PyStr.len sep - 1)
                  EmptyString s) by (by destruct left as [[|n]|]).
      cbn. intros [= <-]. by eexists.
    + replace (match left with Some 0 => _ | _ => _ end)
        with (PyStr.split_go sep left 0 (String c cur) s)
        by (by destruct left as [[|n]|]).
      intros [t Ht]%IH. exists t. rewrite <- Ht.
      unfold String.rev. cbn [String.rev_app]. by rewrite !rev_app_sapp.
Qed.

Lemma occurs_app_l sep h t :
  PyStr.occurs sep (h +:+ t) = false → PyStr.occurs sep h = false.
Proof.
  intros H. destruct (PyStr.occurs sep h) eqn:E; [|done].
  apply contains_occurs in E. apply (contains_app_r _ _ t) in E.
  apply contains_occurs in E. congruence.
Qed.

(** A ruleset text without [---] has no second segment. *)
Lemma extract_domains_no_dashes json_loads rules w :
  PyStr.occurs "---" rules = false →
  extract_domains_from_rule json_loads rules w = (Raised IndexError, w).
Proof.
  intros Hno. unfold extract_domains_from_rule.
  destruct (PyStr.split "*/" rules !! 0) as [h|] eqn:Eh.
  - erewrite bind_run by (rewrite item_run, Eh; reflexivity).
    apply split_go_head in Eh as [t Ht]. cbn in Ht. subst rules.
    apply occurs_app_l in Hno.
    unfold PyStr.splitn. rewrite split_go_none by done.
    by erewrite bind_raise_run by (rewrite item_run; reflexivity).
  - by erewrite bind_raise_run by (rewrite item_run, Eh; reflexivity).
Qed.

(** The kind behind the prefix of a ruleset name. *)
Lemma entity_of_name kind :
  PyStr.occurs RULESET_PREFIX kind = false →
  PyStr.split RULESET_PREFIX (RULESET_PREFIX +:+ kind) !! 1 = Some kind.
Proof.
  intros Hk. unfold PyStr.split, RULESET_PREFIX in *.
  rewrite split_go_match by done.
  cbn [lookup list_lookup fmap option_fmap option_map].
  by rewrite split_go_none.
Qed.

End Header.

Section FetchErrors.

Variable json_loads : string → option (list string).

(** X11.  Only an [APIError] is caught by the fetcher.  A fetched ruleset
    whose text holds no [---] has no header segment: the index error leaves
    [get_rulesets] and [main], nothing is printed and no write is issued. *)
Theorem fetch_header_without_dashes a w body rule key o kind rest :
  templates_at w body rule →
  api_key w = Some key →
  listing w = inl o :: rest →
  obj_name o = RULESET_PREFIX +:+ kind →
  PyStr.occurs RULESET_PREFIX kind = false →
  PyStr.occurs "---" (obj_rules o) = false →
  get_rulesets json_loads w = (Raised IndexError, w)
  ∧ main json_loads a w = (Raised IndexError, w).
Proof.
  intros Htpl Hkey Hit Hname Hkind Hrules.
  assert (get_rulesets json_loads w = (Raised IndexError, w)) as Hget.
  { unfold get_rulesets, ask. unfold mbind at 1, M_bind at 1, bind at 1.
    rewrite Hit, get_rulesets_loop_obj, Hname, entity_of_name by done.
    by rewrite extract_domains_no_dashes. }
  split; [done|]. unfold main.
  erewrite bind_run by (eapply verify_templates_run; eauto).
  unfold ask. unfold mbind at 1, M_bind at 1, bind at 1. rewrite Hkey.
  by erewrite bind_raise_run by apply Hget.
Qed.

End FetchErrors.

Lemma fetch_header_without_dashes_witness :
  let o := {| obj_id := "u1"; obj_name := "auto_network_watch_url";
              obj_rules := "rule edited_by_hand { condition: false }" |} in
  let w := demo_world [inl o] in
  let a := {| arg_list := true; arg_add_domain := None;
              arg_delete_domain := None; arg_workers := 4 |} in
  get_rulesets Json.loads w = (Raised IndexError, w)
  ∧ main Json.loads a w = (Raised IndexError, w).
Proof.
  intros o w a.
  apply (fetch_header_without_dashes Json.loads a w demo_body demo_rule "key"
           o "url" []).
  - apply demo_templates_at.
  - reflexivity.
  - reflexivity.
  - reflexivity.
  - reflexivity.
  - reflexivity.
Defined.

(** ** The JSON text of the domains inside a header *)

Section JsonText.

Import Json.

Implicit Types (s t u d : string) (l doms : list string).

Lemma run_dumps l : run (LStart, []) (dumps_indent1 l) = (LEnd, reverse l).
Proof.
  destruct l as [|s l]; [done|].
  unfold dumps_indent1. cbn [String.append run lstep fst snd].
  replace (is_space "[") with false by reflexivity.
  replace (Ascii.eqb "[" "[") with true by reflexivity.
  rewrite run_app, run_items by (auto || done).
  change (run (LAfter, reverse (s :: l) ++ []) (nl +:+ "]"))
    with (LEnd, reverse (s :: l) ++ []).
  by rewrite app_nil_r.
Qed.

Lemma run_space st acc s :
  st = LStart ∨ st = LEnd → all_space s = true → run (st, acc) s = (st, acc).
Proof.
  intros Hst. induction s as [|c s IH]; [done|].
  cbn [all_space]. intros [Hc Hs]%andb_true_iff.
  cbn [run fst snd]. destruct Hst as [-> | ->]; cbn [lstep]; rewrite Hc; auto.
Qed.

(** White space around the array does not matter. *)
Lemma loads_padded a b l :
  all_space a = true → all_space b = true →
  loads (a +:+ dumps_indent1 l +:+ b) = Some l.
Proof.
  intros Ha Hb. unfold loads. rewrite loads_go_run, !run_app.
  rewrite run_space by auto. rewrite run_dumps. rewrite run_space by auto.
  by rewrite reverse_involutive.
Qed.

Lemma escape_char_nonempty c : escape_char c ≠ EmptyString.
Proof. destruct c as [[] [] [] [] [] [] [] []]; discriminate. Qed.

Lemma plain_dash : plain_char "-".
Proof. intros c. destruct c as [[] [] [] [] [] [] [] []]; reflexivity. Qed.

Lemma plain_star : plain_char "*".
Proof. intros c. destruct c as [[] [] [] [] [] [] [] []]; reflexivity. Qed.

Lemma plain_slash : plain_char "/".
Proof. intros c. destruct c as [[] [] [] [] [] [] [] []]; reflexivity. Qed.

Lemma has_char_head x c s :
  PyStr.has_char x (String c s) = false → x ≠ c.
Proof. cbn [PyStr.has_char]. by intros [?%Ascii.eqb_neq _]%orb_false_iff. Qed.

(** A separator of plain characters that starts the encoded text of a
    string starts the string. *)
Lemma prefix_escape sub d q t :
  (∀ x, PyStr.has_char x sub = true → plain_char x) →
  PyStr.has_char q sub = false →
  String.prefix sub (escape d +:+ String q t) = true →
  String.prefix sub d = true.
Proof.
  revert d. induction sub as [|x sub IH]; intros d Hplain Hq.
  { by destruct d. }
  assert (plain_char x) as Hx
    by (apply Hplain; cbn [PyStr.has_char]; by rewrite Ascii.eqb_refl).
  cbn [PyStr.has_char] in Hq. apply orb_false_iff in Hq as [Hqx Hq].
  apply Ascii.eqb_neq in Hqx.
  destruct d as [|c d].
  - cbn [escape String.append String.prefix].
    destruct (Ascii.ascii_dec x q); [congruence|done].
  - cbn [escape]. specialize (Hx c).
    destruct (Ascii.eqb_spec c x) as [->|Hne].
    + rewrite Hx. cbn [String.append String.prefix].
      destruct (Ascii.ascii_dec x x); [|done].
      apply IH; [|done]. intros y Hy. apply Hplain.
      cbn [PyStr.has_char]. by rewrite Hy, orb_true_r.
    + pose proof (escape_char_nonempty c) as Hnon.
      destruct (escape_char c) as [|h r]; [done|].
      apply has_char_head in Hx.
      cbn [String.append String.prefix].
      by destruct (Ascii.ascii_dec x h).
Qed.

Section Separator.

Variables (x0 : ascii) (sep' : string).

Local Abbreviation sep := (String x0 sep').

Hypothesis Hplain : ∀ x, PyStr.has_char x sep = true → plain_char x.
Hypothesis Hquote : PyStr.has_char (Ascii.ascii_of_N 34) sep = false.
Hypothesis Hstruct :
  Forall (λ c, x0 ≠ c)
    [Ascii.ascii_of_N 10; " "%char; Ascii.ascii_of_N 34; "["%char; "]"%char;
     ","%char].

Lemma occurs_skip_char c r :
  c ≠ x0 → PyStr.occurs sep (String c r) = PyStr.occurs sep r.
Proof.
  intros Hne. cbn [PyStr.occurs]. unfold PyStr.startswith.
  cbn [String.prefix]. by destruct (Ascii.ascii_dec x0 c).
Qed.

Lemma occurs_skip_struct c r :
  c ∈ [Ascii.ascii_of_N 10; " "%char; Ascii.ascii_of_N 34; "["%char; "]"%char;
       ","%char] →
  PyStr.occurs sep (String c r) = PyStr.occurs sep r.
Proof.
  intros Hc. apply occurs_skip_char. intros ->.
  rewrite Forall_forall in Hstruct. by apply (Hstruct x0).
Qed.

Lemma occurs_copy u t :
  PyStr.has_char x0 u = false → PyStr.occurs sep (u +:+ t) = PyStr.occurs sep t.
Proof.
  induction u as [|c u IH]; [done|].
  cbn [PyStr.has_char]. intros [Hc Hu]%orb_false_iff.
  apply Ascii.eqb_neq in Hc. cbn [String.append].
  rewrite occurs_skip_char by done. auto.
Qed.

(** The encoded text of a string without the separator holds no
    separator, nor does one start in it and run over the closing quote. *)
Lemma occurs_escape d t :
  PyStr.occurs sep d = false →
  PyStr.occurs sep (escape d +:+ quote +:+ t) = PyStr.occurs sep t.
Proof.
  induction d as [|c d IH]; intros Hd.
  - cbn [escape String.append quote]. apply occurs_skip_struct. set_solver.
  - apply occurs_cons in Hd as [Hst Hd]. cbn [escape]. rewrite sapp_assoc.
    assert (plain_char x0) as Hx
      by (apply Hplain; cbn [PyStr.has_char]; by rewrite Ascii.eqb_refl).
    specialize (Hx c). destruct (Ascii.eqb_spec c x0) as [->|Hne].
    + rewrite Hx. cbn [String.append PyStr.occurs]. rewrite (IH Hd).
      destruct (PyStr.startswith sep (String x0 (escape d +:+ quote +:+ t)))
        eqn:E; [|done].
      exfalso. unfold PyStr.startswith in *.
      assert (escape (String x0 d) +:+ String (Ascii.ascii_of_N 34) t
              = String x0 (escape d +:+ quote +:+ t)) as Heq
        by (cbn [escape]; by rewrite Hx).
      rewrite <- Heq in E.
      apply prefix_escape in E; [congruence|done..].
    + rewrite occurs_copy by done. auto.
Qed.

Lemma occurs_item s r :
  PyStr.occurs sep s = false →
  PyStr.occurs sep ((nl +:+ " " +:+ dumps_str s) +:+ r) = PyStr.occurs sep r.
Proof.
  intros Hs. unfold dumps_str.
  replace ((nl +:+ " " +:+ quote +:+ escape s +:+ quote) +:+ r)
    with (String (Ascii.ascii_of_N 10)
            (String " " (String (Ascii.ascii_of_N 34)
                           (escape s +:+ quote +:+ r))))
    by (by rewrite !sapp_assoc).
  rewrite !occurs_skip_struct by set_solver. by apply occurs_escape.
Qed.

Lemma occurs_items l t :
  (∀ d, d ∈ l → PyStr.occurs sep d = false) →
  PyStr.occurs sep (dumps_items l +:+ t) = PyStr.occurs sep t.
Proof.
  induction l as [|s l IH]; intros Hl; [done|].
  destruct l as [|s' l].
  - cbn [dumps_items]. apply occurs_item, Hl. by left.
  - change (dumps_items (s :: s' :: l))
      with (nl +:+ " " +:+ dumps_str s +:+ "," +:+ dumps_items (s' :: l)).
    replace ((nl +:+ " " +:+ dumps_str s +:+ "," +:+ dumps_items (s' :: l)) +:+ t)
      with ((nl +:+ " " +:+ dumps_str s)
            +:+ String "," (dumps_items (s' :: l) +:+ t))
      by (by rewrite !sapp_assoc).
    rewrite occurs_item by (apply Hl; by left).
    rewrite occurs_skip_struct by set_solver.
    apply IH. intros d Hd. apply Hl. by right.
Qed.

(** The JSON text of a list of strings without the separator holds no
    separator. *)
Lemma occurs_dumps l :
  (∀ d, d ∈ l → PyStr.occurs sep d = false) →
  PyStr.occurs sep (dumps_indent1 l) = false.
Proof.
  intros Hl. destruct l as [|s l]; unfold dumps_indent1.
  - change "[]" with (String "[" (String "]" EmptyString)).
    by rewrite !occurs_skip_struct by set_solver.
  - change ("[" +:+ ?r) with (String "[" r).
    rewrite occurs_skip_struct by set_solver. rewrite occurs_items by done.
    change (nl +:+ "]")
      with (String (Ascii.ascii_of_N 10) (String "]" EmptyString)).
    by rewrite !occurs_skip_struct by set_solver.
Qed.

End Separator.

Lemma dumps_without_dashes l :
  (∀ d, d ∈ l → PyStr.occurs "---" d = false) →
  PyStr.occurs "---" (dumps_indent1 l) = false.
Proof.
  apply occurs_dumps; [|done|by repeat constructor].
  intros x Hx. cbn [PyStr.has_char] in Hx. rewrite !orb_false_r in Hx.
  repeat (apply orb_true_iff in Hx as [Hx|Hx]);
    apply Ascii.eqb_eq in Hx as ->; apply plain_dash.
Qed.

Lemma dumps_without_comment_end l :
  (∀ d, d ∈ l → PyStr.occurs "*/" d = false) →
  PyStr.occurs "*/" (dumps_indent1 l) = false.
Proof.
  apply occurs_dumps; [|done|by repeat constructor].
  intros x Hx. cbn [PyStr.has_char] in Hx. rewrite !orb_false_r in Hx.
  apply orb_true_iff in Hx as [Hx|Hx]; apply Ascii.eqb_eq in Hx as ->;
    [apply plain_star|apply plain_slash].
Qed.

End JsonText.

(** ** What is rendered is read back *)

Section RoundTrip.

Implicit Types (s t u intro rest : string) (doms : list string).

Lemma passes_copy_end c sep u :
  PyStr.has_char c u = false → passes (String c sep) u.
Proof.
  intros Hu. rewrite <- (sapp_empty_r u).
  apply passes_copy; [done|apply passes_nil].
Qed.

(** A white-space character is in neither separator. *)
Lemma space_guard g :
  Json.is_space g = true →
  PyStr.has_char g "---" = false ∧ PyStr.has_char g "*/" = false.
Proof.
  intros Hg. cbn [PyStr.has_char]. rewrite !orb_false_r.
  assert (∀ x, Json.is_space x = false → Ascii.eqb g x = false) as Hne.
  { intros x Hx. apply Ascii.eqb_neq. congruence. }
  by rewrite !Hne.
Qed.

(** The rendered text, for a body that follows the header convention. *)
Lemma rendered_header intro sp0 sp1 sp2 sp3 rest rule_block doms :
  PyStr.has_char "$" intro = false →
  all_space sp0 = true → all_space sp1 = true →
  all_space sp2 = true → all_space sp3 = true →
  ∃ tail,
    rendered (header_body intro sp0 sp1 sp2 sp3 rest) rule_block doms
    = intro +:+ sp0 +:+ "---" +:+ sp1 +:+ Json.dumps_indent1 doms +:+ sp2
      +:+ "---" +:+ sp3 +:+ "*/" +:+ tail.
Proof.
  intros Hintro H0 H1 H2 H3.
  assert (∀ s, all_space s = true → PyStr.has_char "$" s = false) as Hsp
    by (intros s; by apply all_space_has_char).
  eexists. unfold rendered, header_body, PyStr.replace.
  rewrite !replace_go_copy by auto.
  rewrite replace_go_match.
  rewrite !replace_go_copy by auto.
  rewrite !sapp_assoc. reflexivity.
Qed.

(** X12.  What [render_template] writes, [extract_domains_from_rule] reads
    back: for a body template that follows the header convention, and
    domains that hold neither [---] nor the end of a comment, the list
    extracted from the rendered text is the list that was rendered. *)
Theorem extract_rendered intro sp0 sp1 sp2 sp3 rest rule_block doms w :
  PyStr.has_char "$" intro = false →
  PyStr.occurs "---" intro = false →
  PyStr.occurs "*/" intro = false →
  all_space sp0 = true → sp0 ≠ EmptyString →
  all_space sp1 = true →
  all_space sp2 = true → sp2 ≠ EmptyString →
  all_space sp3 = true →
  (∀ d, d ∈ doms → PyStr.occurs "---" d = false ∧ PyStr.occurs "*/" d = false) →
  extract_domains_from_rule Json.loads
    (rendered (header_body intro sp0 sp1 sp2 sp3 rest) rule_block doms) w
  = (Returned doms, w).
Proof.
  intros Hd Hi1 Hi2 H0 Hn0 H1 H2 Hn2 H3 Hdoms.
  destruct (rendered_header intro sp0 sp1 sp2 sp3 rest rule_block doms)
    as [tail ->]; [done..|].
  set (json := Json.dumps_indent1 doms).
  assert (PyStr.occurs "---" json = false) as Hj1
    by (apply dumps_without_dashes; intros d Hin; by apply Hdoms).
  assert (PyStr.occurs "*/" json = false) as Hj2
    by (apply dumps_without_comment_end; intros d Hin; by apply Hdoms).
  destruct sp0 as [|g0 sp0']; [done|]. destruct sp2 as [|g2 sp2']; [done|].
  cbn [all_space] in H0, H2.
  apply andb_true_iff in H0 as [Hg0 H0]. apply andb_true_iff in H2 as [Hg2 H2].
  destruct (space_guard g0 Hg0) as [Hg0d Hg0c].
  destruct (space_guard g2 Hg2) as [Hg2d Hg2c].
  assert (∀ s, all_space s = true → PyStr.has_char "-" s = false) as Hdash
    by (intros s; by apply all_space_has_char).
  assert (∀ s, all_space s = true → PyStr.has_char "*" s = false) as Hstar
    by (intros s; by apply all_space_has_char).
  set (U := intro +:+ String g0 sp0').
  set (V := sp1 +:+ json +:+ String g2 sp2').
  set (H := U +:+ "---" +:+ V +:+ "---" +:+ sp3).
  assert (intro +:+ String g0 sp0' +:+ "---" +:+ sp1 +:+ json +:+ String g2 sp2'
          +:+ "---" +:+ sp3 +:+ "*/" +:+ tail
          = H +:+ "*/" +:+ tail) as ->
    by (unfold H, U, V; by rewrite !sapp_assoc).
  assert (passes "*/" H) as HpH.
  { unfold H, U, V. rewrite !sapp_assoc.
    apply passes_guard; [done..|].
    apply passes_copy; [auto|]. apply (passes_copy "*" "/" "---"); [done|].
    apply passes_copy; [auto|].
    apply passes_guard; [done..|].
    apply passes_copy; [auto|]. apply (passes_copy "*" "/" "---"); [done|].
    apply passes_copy_end. auto. }
  assert (passes "---" U) as HpU.
  { unfold U. apply passes_guard; [done..|]. apply passes_copy_end. auto. }
  assert (passes "---" V) as HpV.
  { unfold V. apply passes_copy; [auto|].
    apply passes_guard; [done..|]. apply passes_copy_end. auto. }
  unfold extract_domains_from_rule.
  erewrite bind_run.
  2:{ rewrite item_run. unfold PyStr.split.
      rewrite (split_go_first "*" "/" None H tail) by done. reflexivity. }
  erewrite bind_run.
  2:{ rewrite item_run. unfold PyStr.splitn, H.
      rewrite (split_go_first "-" "--" (Some 2) U) by done.
      cbn [fmap option_fmap option_map Nat.pred].
      rewrite (split_go_first "-" "--" (Some 1) V) by done. reflexivity. }
  unfold V, json. rewrite loads_padded; [done..|].
  cbn [all_space]. by rewrite Hg2, H2.
Qed.

End RoundTrip.

Lemma extract_rendered_witness :
  extract_domains_from_rule Json.loads
    (rendered (header_body "/*" Json.nl Json.nl Json.nl Json.nl Json.nl)
       (demo_rule "url") ["my-site.com"; "b.com"]) (demo_world [])
  = (Returned ["my-site.com"; "b.com"], demo_world []).
Proof.
  apply (extract_rendered "/*" Json.nl Json.nl Json.nl Json.nl Json.nl
           (demo_rule "url") ["my-site.com"; "b.com"] (demo_world []));
    try done.
  intros d Hd.
  repeat (apply elem_of_cons in Hd as [->|Hd]; [by vm_compute|]).
  by apply elem_of_nil in Hd.
Defined.

(** ** A second run finds nothing to do *)

Section Rerun.



End Rerun.


(** ** How a run can end *)

Section Outcomes.

Variable json_loads : string → option (list string).






End Outcomes.


(** ** The workers, whatever the order of the replies *)

(** X15.  The workers as coroutines that take turns in any order, at least
    one of them: no schedule goes on for ever, a pool that is not finished
    can always move, and when all workers have left their loops the queue
    is empty, the writes issued are those of the tasks in queue order, one
    each, as in [run_workers], and every task has been marked done once. *)
Theorem workers_any_schedule n queue p w :
  0 < n →
  rtc pool_step (pool_start n queue) p →
  well_founded (flip pool_step)
  ∧ (¬ pool_finished p → ∃ p', pool_step p p')
  ∧ (pool_finished p →
     pool_queue p = []
     ∧ pool_calls p = call_of <$> queue
     ∧ pool_done p ≡ₚ queue
     ∧ calls (run_workers n queue w).2 = calls w ++ pool_calls p).
Proof.
  intros Hn Hrtc. split; [apply pool_step_wf|].
  split; [apply pool_progress|].
  intros Hfin. by apply pool_final.
Qed.

Lemma workers_any_schedule_witness :
  let t1 := {| task_name := "auto_network_watch_file"; task_entity := "file";
               task_rules := "r1"; task_id := None |} in
  let t2 := {| task_name := "auto_network_watch_url"; task_entity := "url";
               task_rules := "r2"; task_id := Some "u1" |} in
  let p := Pool [] [Finished; Finished] [call_of t1; call_of t2] [t2; t1] in
  well_founded (flip pool_step)
  ∧ (¬ pool_finished p → ∃ p', pool_step p p')
  ∧ (pool_finished p →
     pool_queue p = []
     ∧ pool_calls p = call_of <$> [t1; t2]
     ∧ pool_done p ≡ₚ [t1; t2]
     ∧ calls (run_workers 2 [t1; t2] (demo_world [])).2
       = calls (demo_world []) ++ pool_calls p).
Proof.
  intros t1 t2 p.
  apply (workers_any_schedule 2 [t1; t2] p (demo_world [])); [lia|].
  (* worker 0 takes t1, worker 1 takes t2, the reply to t2 comes first *)
  eapply rtc_l; [apply (step_take 0); reflexivity|].
  eapply rtc_l; [apply (step_take 1); reflexivity|].
  eapply rtc_l; [apply (step_reply 1 t2); reflexivity|].
  eapply rtc_l; [apply (step_reply 0 t1); reflexivity|].
  eapply rtc_l; [apply (step_leave 0); reflexivity|].
  eapply rtc_l; [apply (step_leave 1); reflexivity|].
  apply rtc_refl.
Defined.

(** ** The bound of the fetcher *)

Section FetchLimit.

Variable json_loads : string → option (list string).

Lemma get_rulesets_loop_limit limit objs rest rulesets w :
  length objs = limit →
  get_rulesets_loop json_loads limit ((inl <$> objs) ++ rest) rulesets w
  = get_rulesets_loop json_loads limit (inl <$> objs) rulesets w.
Proof.
  revert objs rulesets. induction limit as [|limit IH]; intros objs rulesets Hlen.
  - destruct objs; [|done]. by destruct rest.
  - destruct objs as [|o objs]; [done|].
    cbn [fmap list_fmap app]. rewrite !get_rulesets_loop_obj.
    repeat case_match; try done. apply IH. by injection Hlen.
Qed.

(** X16.  The fetcher takes ten objects at most: what the service holds
    behind the tenth ruleset, be it further rulesets or a failure, has no
    effect on the result. *)
Theorem get_rulesets_ten_at_most objs rest rest' w w' :
  length objs = 10 →
  listing w = (inl <$> objs) ++ rest →
  listing w' = (inl <$> objs) ++ rest' →
  (get_rulesets json_loads w).1
  = (get_rulesets_loop json_loads 10 (inl <$> objs) ∅ w).1
  ∧ (get_rulesets json_loads w).2 = w
  ∧ (get_rulesets json_loads w').1 = (get_rulesets json_loads w).1.
Proof.
  intros Hlen Hw Hw'.
  assert (∀ v r, listing v = (inl <$> objs) ++ r →
                 get_rulesets json_loads v
                 = get_rulesets_loop json_loads 10 (inl <$> objs) ∅ v) as Hget.
  { intros v r Hv. unfold get_rulesets, ask.
    unfold mbind at 1, M_bind at 1, bind at 1.
    rewrite Hv. by apply get_rulesets_loop_limit. }
  rewrite (Hget w rest Hw), (Hget w' rest' Hw').
  split; [done|]. split.
  - destruct (get_rulesets_loop json_loads 10 (inl <$> objs) ∅ w)
      as [r v] eqn:E.
    by apply get_rulesets_loop_objs_world in E.
  - clear Hget Hw Hw' Hlen. generalize (∅ : gmap string ruleset).
    generalize 10. intros limit. revert objs.
    induction limit as [|limit IH]; intros objs m.
    + by destruct objs.
    + destruct objs as [|o objs]; [done|].
      cbn [fmap list_fmap]. rewrite !get_rulesets_loop_obj.
      destruct (PyStr.split RULESET_PREFIX (obj_name o) !! 1); [|done].
      destruct (extract_domains_from_rule json_loads (obj_rules o) w)
        as [r1 v1] eqn:E1.
      destruct (extract_domains_from_rule json_loads (obj_rules o) w')
        as [r2 v2] eqn:E2.
      assert (r1 = r2) as <-.
      { revert E1 E2. unfold extract_domains_from_rule, item, mbind, M_bind,
          bind, mret, M_ret, ret, raise.
        repeat case_match; intros ??; by simplify_eq. }
      cbn [fst]. destruct r1; [apply IH|done..].
Qed.

End FetchLimit.

Lemma get_rulesets_ten_at_most_witness :
  let objs := replicate 10 (demo_url_ruleset ["a.com"]) in
  let w := demo_world ((inl <$> objs) ++ [inr "down"]) in
  let w' := demo_world ((inl <$> objs) ++ [inl (demo_url_ruleset ["z.com"])]) in
  (get_rulesets Json.loads w).1
  = (get_rulesets_loop Json.loads 10 (inl <$> objs) ∅ w).1
  ∧ (get_rulesets Json.loads w).2 = w
  ∧ (get_rulesets Json.loads w').1 = (get_rulesets Json.loads w).1.
Proof.
  intros objs w w'.
  apply (get_rulesets_ten_at_most Json.loads objs [inr "down"]
           [inl (demo_url_ruleset ["z.com"])] w w'); reflexivity.
Defined.

(** ** The first and the last domain *)

Section FirstAndLast.

Variable json_loads : string → option (list string).

(** X17.  The first run on an account without rulesets, with a domain to
    add and at least one worker: the four rulesets are created by POST, in
    the order file, url, domain, ip_address, each with the text rendered
    for the one domain, and [main] returns normally. *)
Theorem main_first_run a w body rule key d :
  templates_at w body rule →
  api_key w = Some key →
  listing w = [] →
  arg_list a = false →
  arg_add_domain a = Some d →
  d ≠ EmptyString →
  truthy (arg_delete_domain a) = false →
  (0 < arg_workers a)%Z →
  ∃ w',
    main json_loads a w = (Returned tt, w')
    ∧ calls w'
      = calls w
        ++ ((λ e, PostCall (RULESET_PREFIX +:+ e) e (rendered body (rule e) [d]))
              <$> RULESET_ENTITY).
Proof.
  intros Htpl Hkey Hit Hlist Hadd Hd Hdel Hw.
  assert (get_rulesets json_loads w = (Returned ∅, w)) as Hget.
  { unfold get_rulesets, ask. unfold mbind at 1, M_bind at 1, bind at 1.
    by rewrite Hit. }
  assert (truthy (Some d) = true) as Ht
    by (rewrite truthy_Some; by apply bool_decide_eq_true_2).
  erewrite main_run by eauto.
  rewrite main_with_reconcile; [|right; by rewrite Hadd|done].
  rewrite lookup_empty. cbn [from_option]. rewrite Hadd.
  assert (reconcile [] (Some d) (arg_delete_domain a)
          = Reconciled {| domains := []; new_domain_list := [d] |}) as ->.
  { unfold reconcile. rewrite Ht, Hdel.
    unfold append_new, copy_domains, canonicalize_new.
    cbn [new_domain_list domains app].
    rewrite (canonical_fixed [d]);
      [by destruct (arg_delete_domain a)|repeat constructor|].
    apply NoDup_singleton. }
  erewrite synchronize_differ by eauto.
  rewrite decide_True by done. eexists. split; [reflexivity|].
  cbn [emit calls new_domain_list]. f_equal.
Qed.

(** X18.  Deleting the only domain of the list leaves the empty list, which
    differs from the old one; the rule text built for each of the four
    kinds is then the body with an empty JSON array and no rule block. *)
Theorem delete_last_domain rulesets w body rule d :
  templates_at w body rule →
  d ≠ EmptyString →
  reconcile [d] None (Some d)
  = Reconciled {| domains := [d]; new_domain_list := [] |}
  ∧ ∃ queue,
      build_rulesets [] rulesets [] w = (Returned queue, w)
      ∧ task_entity <$> queue = RULESET_ENTITY
      ∧ ∀ t, t ∈ queue →
             task_rules t
             = PyStr.replace "${domain_list_json}" "[]" body +:+ Json.nl.
Proof.
  intros Htpl Hd. split.
  - unfold reconcile. rewrite truthy_Some, (bool_decide_eq_true_2 _ Hd).
    unfold py_in, copy_domains, remove_new, canonicalize_new.
    cbn [new_domain_list domains].
    rewrite bool_decide_eq_true_2 by (by left).
    cbn [negb py_remove]. by rewrite decide_True.
  - eexists. split; [by eapply build_rulesets_run|]. split; [done|].
    intros t Ht. cbn [app] in Ht. apply list_elem_of_fmap in Ht as (e & -> & _).
    unfold task_for, rendered. cbn [task_rules fmap list_fmap join].
    by rewrite sapp_empty_r.
Qed.

End FirstAndLast.

Lemma main_first_run_witness :
  let w := demo_world [] in
  let a := {| arg_list := false; arg_add_domain := Some "a.com";
              arg_delete_domain := None; arg_workers := 4 |} in
  ∃ w',
    main Json.loads a w = (Returned tt, w')
    ∧ calls w'
      = calls w
        ++ ((λ e, PostCall (RULESET_PREFIX +:+ e) e
                    (rendered demo_body (demo_rule e) ["a.com"]))
              <$> RULESET_ENTITY).
Proof.
  intros w a.
  apply (main_first_run Json.loads a w demo_body demo_rule "key" "a.com");
    try done.
  apply demo_templates_at.
Defined.

Lemma delete_last_domain_witness :
  let w := demo_world [] in
  reconcile ["a.com"] None (Some "a.com")
  = Reconciled {| domains := ["a.com"]; new_domain_list := [] |}
  ∧ ∃ queue,
      build_rulesets [] (demo_rulesets ["a.com"]) [] w = (Returned queue, w)
      ∧ task_entity <$> queue = RULESET_ENTITY
      ∧ ∀ t, t ∈ queue →
             task_rules t
             = PyStr.replace "${domain_list_json}" "[]" demo_body +:+ Json.nl.
Proof.
  intros w.
  apply (delete_last_domain (demo_rulesets ["a.com"]) w demo_body demo_rule
           "a.com"); [apply demo_templates_at|done].
Defined.

(** The condition on the domains in [extract_rendered] is needed: three
    dashes inside a domain cut the header short. *)
Example extract_three_dashes :
  (extract_domains_from_rule Json.loads
     (rendered demo_body (demo_rule "url") ["a---b.com"]) (demo_world [])).1
  = Raised JSONDecodeError.
Proof. vm_compute. reflexivity. Qed.
